(** * 3DEP seamless elevation to H3 hexagons: the tiled aggregation pipeline

    A shallow embedding of [elevation_h3_clean.py] (the concurrent, two-phase
    pipeline) and of the aggregation cells of [elevation_h3.py] (the
    single-pass variant), with the properties of the resolution planner, the
    tile worker, the worker pool and the result merger.

    Modelling conventions.
    - Python [float] and Arrow [float64] values are exact rationals ([Qc]):
      the rounding of a float operation, infinities, NaN and NULL are outside
      this model.  What is proved over [Qc] says which aggregate of which
      rows the code computes.  What depends on the order in which a sum is
      taken is stated for every aggregate function ([merge_batches_with]),
      with examples in binary64 ([AVG_double]).
    - Python [int] is [Z]; an [int] operand of a float division is converted
      to float first, which raises [OverflowError] from [float_limit] on.  An
      H3 cell id is an [N].
    - An Arrow table with columns (hex, metric) is the list of its rows.  The
      row order of a SQL GROUP BY is chosen by the engine; [group_by_avg]
      fixes one order and the results are read as finite maps ([hex_result]).
    - A call that can raise returns a [result]; [except Exception] is a match
      on [Raise].
    - The libraries the code calls (odc-stac, pyproj, morecantile, h3, the
      STAC client, the per-tile DuckDB session) are fields of [Collaborators].
      [pa.concat_tables] and the GROUP BY / AVG of the merge session are given
      by their semantics.
    - The thread pool is the order in which [as_completed] yields the tasks,
      some permutation of the submitted ones; the theorems hold for each.
      [max_workers] is positive at every call (the default is 4, the notebook
      passes 8), so the executor is always created.
    - The merge session of [process_all_tiles] ([duckdb.connect] and its one
      query over the concatenated tables, with no extension to load) is taken
      to run; the per-tile session, which loads h3 under a memory limit, may
      fail ([get_con], [sql_runs]).
    - [print] calls are omitted, except those of the pool, which
      [process_all_tiles_log] records. *)

From Stdlib Require Import ZArith QArith Qcanon Qround Lia Lqa.
From Stdlib Require PrimFloat Uint63 FloatOps SpecFloat.
From stdpp Require Import gmap strings list fin_maps sets.

Open Scope Z_scope.

(** ** Exceptions and fallible results *)

Inductive exn : Type :=
| ZeroDivisionError
| OverflowError
| RuntimeError (msg : string)
| ValueError (msg : string)
| ArrowInvalid
| LibraryError (origin : string).

Inductive result (A : Type) : Type :=
| Ok (a : A)
| Raise (e : exn).
Arguments Ok {A} a.
Arguments Raise {A} e.

#[global] Instance result_ret : MRet result := λ A a, Ok a.
#[global] Instance result_bind : MBind result := λ A B f m,
  match m with
  | Ok a => f a
  | Raise e => Raise e
  end.
#[global] Instance result_fmap : FMap result := λ A B f m,
  match m with
  | Ok a => Ok (f a)
  | Raise e => Raise e
  end.

#[global] Instance exn_eq_dec : EqDecision exn.
Proof. solve_decision. Defined.

(** ** Numbers *)

Abbreviation float := Qc.

Definition Z2f (n : Z) : float := Qc_of_Z n.

(** The least magnitude of an [int] that has no float: 2^1024 - 2^970 rounds
    to 2^1024, beyond [sys.float_info.max] = 2^1024 - 2^971. *)
Definition float_limit : Z := 2 ^ 1024 - 2 ^ 970.

(** The conversion of an [int] operand to float:
    [OverflowError: int too large to convert to float]. *)
Definition float_of_int (n : Z) : result float :=
  if decide (Z.abs n < float_limit) then Ok (Z2f n) else Raise OverflowError.

(** [a / b] for a float [a] and an int [b]: [b] is converted, then Python
    raises on a zero divisor. *)
Definition py_div (a : float) (b : Z) : result float :=
  divisor ← float_of_int b;
  if decide (divisor = 0%Qc) then Raise ZeroDivisionError else Ok (a / divisor)%Qc.

(** [round(x)] with one argument: the nearest integer, ties to the even one. *)
Definition py_round (x : float) : Z :=
  let n := Qnum (this x) in
  let d := Z.pos (Qden (this x)) in
  let f := n `div` d in
  let r := n `mod` d in
  match 2 * r ?= d with
  | Lt => f
  | Gt => f + 1
  | Eq => if Z.even f then f else f + 1
  end.

(** ** Geometry and tables *)

Abbreviation hex_id := N.

Record BBox := mkBBox { west : float; south : float; east : float; north : float }.

Record Tile := mkTile { tile_x : Z; tile_y : Z; tile_z : Z }.

#[global] Instance Tile_eq_dec : EqDecision Tile.
Proof. solve_decision. Defined.

(** [arr] of the worker: the values and the two coordinate axes. *)
Record SampleGrid := mkGrid {
  vals : list (list float);
  x_coords : list float;
  y_coords : list float
}.

(** A row of [tile_pa] / [pixels_table]. *)
Record GeoSample := mkSample { lat : float; lng : float; elevation : float }.

(** Rows (hex, metric). *)
Abbreviation table := (list (hex_id * float)).

(** ** Collaborators *)

Record Collaborators := mkCollab {
  Items : Type;
  Dataset : Type;
  Session : Type;
  (** [h3.average_hexagon_edge_length(h3_res, unit='m')] *)
  average_hexagon_edge_length : Z → result float;
  (** [catalog.search(...).item_collection()] *)
  stac_search : BBox → string → result Items;
  (** [list(tms.tiles( *bbox, zooms=[zoom]))] *)
  tms_tiles : BBox → Z → result (list Tile);
  (** [tms.bounds(tile)] *)
  tms_bounds : Tile → BBox;
  (** [odc.stac.load(items, crs, resolution, bands, bbox).astype(float)] *)
  odc_stac_load : Items → Z → string → BBox → result Dataset;
  (** [ds[band].max(dim="time")] with its values and coordinates *)
  max_over_time : Dataset → string → result SampleGrid;
  (** [transformer.transform(xs, ys)], returning (lons, lats) *)
  transform : list float → list float → result (list float * list float);
  (** [duckdb.sql("INSTALL h3 FROM community")], in the cell that defines
      the functions *)
  install_h3 : result unit;
  (** [get_con()]: a session with the memory limit set and h3 loaded *)
  get_con : result Session;
  (** [duckdb.connect()] followed by INSTALL and LOAD of h3 (elevation_h3.py) *)
  connect_install_h3 : result Session;
  (** whether the session runs the per-tile query over [tile_pa] *)
  sql_runs : Session → list GeoSample → result unit;
  (** [h3_latlng_to_cell(lat, lng, res)] *)
  h3_latlng_to_cell : float → float → Z → hex_id;
  (** the order in which [as_completed] yields the submitted tasks *)
  as_completed : list Tile → list Tile;
  as_completed_perm : ∀ l, as_completed l ≡ₚ l
}.

(** ** Resolution planner (elevation_h3_clean.py, lines 98-105) *)

Definition calculate_resolution_for_h3 (C : Collaborators)
    (h3_res native_resolution pixels_per_hex_edge : Z) : result Z :=
  hex_edge_m ← average_hexagon_edge_length C h3_res;
  target ← py_div hex_edge_m pixels_per_hex_edge;
  steps ← py_div target native_resolution;
  let resolution := Z.max (py_round steps * native_resolution) native_resolution in
  px_per_edge ← py_div hex_edge_m resolution;
  Ok resolution.

(** [m] is a multiple of [n] and no multiple of [n] is closer to [t]:
    [t] lies within half a step of [m]. *)
Definition nearest_multiple (n : Z) (t : float) (m : Z) : Prop :=
  (n | m) ∧ (Z2f (2 * m - n) ≤ 2 * t)%Qc ∧ (2 * t ≤ Z2f (2 * m + n))%Qc.

(** ** The aggregation engine: GROUP BY 1 with AVG *)

Definition fsum (l : list float) : float := foldr Qcplus 0%Qc l.

(** SQL [AVG] over the values of one group. *)
Definition AVG (l : list float) : float :=
  (fsum l / Z2f (Z.of_nat (length l)))%Qc.

(** The metric values of the rows whose key is [h]. *)
Definition group_of (h : hex_id) (rows : table) : list float :=
  snd <$> filter (λ r, r.1 = h) rows.

(** [SELECT hex, AVG(metric) AS metric FROM rows GROUP BY 1] *)
Definition group_by_avg (rows : table) : table :=
  (λ h, (h, AVG (group_of h rows))) <$> remove_dups (rows.*1).

(** The final mapping from hex id to aggregated elevation. *)
Definition hex_result (t : table) : gmap hex_id float := list_to_map t.

(** *** The same engine over any values and any aggregate

    [group_by_avg] is [group_by_with AVG].  The engine's [AVG] over DOUBLE
    keeps a running binary64 sum and a count per group, adds the rows as it
    meets them and divides at the end: [AVG_double]. *)

Definition group_of_with {V : Type} (h : hex_id) (rows : list (hex_id * V)) : list V :=
  snd <$> filter (λ r, r.1 = h) rows.

Definition group_by_with {V : Type} (agg : list V → V) (rows : list (hex_id * V))
    : list (hex_id * V) :=
  (λ h, (h, agg (group_of_with h rows))) <$> remove_dups (rows.*1).

Definition AVG_double (l : list PrimFloat.float) : PrimFloat.float :=
  PrimFloat.div (fold_left PrimFloat.add l PrimFloat.zero)
    (PrimFloat.of_uint63 (Uint63.of_Z (Z.of_nat (length l)))).

(** ** Tile worker (elevation_h3_clean.py, lines 140-182) *)

(** [np.meshgrid(x, y)]: two arrays of shape (len y, len x). *)
Definition meshgrid (xs ys : list float) : list (list float) * list (list float) :=
  ((λ _, xs) <$> ys, (λ y, replicate (length xs) y) <$> ys).

(** The rows of a table with the columns lat, lng and elevation. *)
Definition rows_of_columns (lats lons elevs : list float) : list GeoSample :=
  zip_with (λ ll e, mkSample ll.1 ll.2 e) (zip lats lons) elevs.

(** [pa.table] of the three columns: they must have one length. *)
Definition pa_table (lats lons elevs : list float) : result (list GeoSample) :=
  if decide (length lats = length lons ∧ length lons = length elevs)
  then Ok (rows_of_columns lats lons elevs)
  else Raise ArrowInvalid.

(** Load one tile and reproject its pixels: lines 145-166 of
    elevation_h3_clean.py, and lines 153-180 of elevation_h3.py.  Only the
    load is inside the [try]; a failed load gives [None].  [tms.bounds] and
    the construction of the transformer, which precede the [try], are total. *)
Definition load_tile_pixels (C : Collaborators) (items : Items C) (band : string)
    (resolution : Z) (tile : Tile)
    : result (option (list float * list float * list float)) :=
  let tile_bbox := tms_bounds C tile in
  match odc_stac_load C items resolution band tile_bbox with
  | Raise _ => Ok None
  | Ok ds =>
      arr ← max_over_time C ds band;
      let XY := meshgrid (x_coords arr) (y_coords arr) in
      lonlat ← transform C (concat XY.1) (concat XY.2);
      Ok (Some (lonlat.2, lonlat.1, concat (vals arr)))
  end.

(** The rows the per-tile query groups: the cell of each sample with its
    elevation. *)
Definition keyed (C : Collaborators) (h3_res : Z) (tile_pa : list GeoSample) : table :=
  (λ s, (h3_latlng_to_cell C (lat s) (lng s) h3_res, elevation s)) <$> tile_pa.

(** [SELECT h3_latlng_to_cell(lat, lng, h3_res) AS hex, AVG(elevation) AS
    metric FROM tile_pa GROUP BY 1] *)
Definition tile_query (C : Collaborators) (h3_res : Z) (tile_pa : list GeoSample) : table :=
  group_by_avg (keyed C h3_res tile_pa).

Definition process_tile_to_h3 (C : Collaborators) (tile : Tile) (items : Items C)
    (band : string) (h3_res resolution : Z) : result (option table) :=
  px ← load_tile_pixels C items band resolution tile;
  match px with
  | None => Ok None
  | Some (lats, lons, elevs) =>
      tile_pa ← pa_table lats lons elevs;
      con ← get_con C;
      _ ← sql_runs C con tile_pa;
      Ok (Some (tile_query C h3_res tile_pa))
  end.

(** ** Worker pool and result merger (elevation_h3_clean.py, lines 184-217) *)

(** The loop over [as_completed(futures)]: [future.result()] re-raises what
    the worker raised; a result is kept when it is not [None] and has rows. *)
Fixpoint collect_results (futures : list (result (option table))) (batches : list table)
    : result (list table) :=
  match futures with
  | [] => Ok batches
  | future :: rest =>
      res ← future;
      collect_results rest
        (match res with
         | Some t => if decide (0 < length t)%nat then batches ++ [t] else batches
         | None => batches
         end)
  end.

(** The tables a completed task adds to [batches]. *)
Definition kept (future : result (option table)) : list table :=
  match future with
  | Ok (Some t) => if decide (0 < length t)%nat then [t] else []
  | _ => []
  end.

(** Lines 203-217: the check for no data, [pa.concat_tables], the merge query. *)
Definition merge_batches (batches : list table) : result table :=
  match batches with
  | [] => Raise (RuntimeError "No tiles produced data")
  | _ => let combined := concat batches in Ok (group_by_avg combined)
  end.

(** The same lines over any values and any aggregate in the place of [AVG]. *)
Definition merge_batches_with {V : Type} (agg : list V → V)
    (batches : list (list (hex_id * V))) : result (list (hex_id * V)) :=
  match batches with
  | [] => Raise (RuntimeError "No tiles produced data")
  | _ => let combined := concat batches in Ok (group_by_with agg combined)
  end.

(** The task [pool.submit(process_tile_to_h3, tile, tms, items, band, h3_res,
    resolution)] runs for a tile. *)
Definition task (C : Collaborators) (items : Items C) (band : string)
    (h3_res resolution : Z) (tile : Tile) : result (option table) :=
  process_tile_to_h3 C tile items band h3_res resolution.

Definition process_all_tiles (C : Collaborators) (items : Items C) (tiles : list Tile)
    (band : string) (h3_res resolution : Z) : result table :=
  let futures := task C items band h3_res resolution <$> as_completed C tiles in
  batches ← collect_results futures [];
  merge_batches batches.

(** ** The notebook cells that run the pipeline (lines 238-279) *)

Record Config := mkConfig {
  bbox : BBox;
  COLLECTION : string;
  BAND : string;
  H3_RES : Z;
  NATIVE_RESOLUTION : Z;
  TILE_ZOOM : Z
}.

Definition query_stac (C : Collaborators) (b : BBox) (collection : string) : result (Items C) :=
  stac_search C b collection.

Definition get_tiles (C : Collaborators) (b : BBox) (zoom : Z) : result (list Tile) :=
  tms_tiles C b zoom.

(** The cell that defines the functions (it installs h3), the configuration
    cell and the processing cell, in the order of their dependencies.  The
    first component is the list of tiles submitted to the pool. *)
Definition run_pipeline (C : Collaborators) (cfg : Config) : list Tile * result table :=
  match install_h3 C with
  | Raise e => ([], Raise e)
  | Ok _ =>
      match calculate_resolution_for_h3 C (H3_RES cfg) (NATIVE_RESOLUTION cfg) 6 with
      | Raise e => ([], Raise e)
      | Ok RESOLUTION =>
          match query_stac C (bbox cfg) (COLLECTION cfg) with
          | Raise e => ([], Raise e)
          | Ok items =>
              match get_tiles C (bbox cfg) (TILE_ZOOM cfg) with
              | Raise e => ([], Raise e)
              | Ok tiles =>
                  (tiles, process_all_tiles C items tiles (BAND cfg) (H3_RES cfg) RESOLUTION)
              end
          end
      end
  end.

(** ** The single-pass variant (elevation_h3.py, lines 144-221) *)

(** The loop over the tiles, appending each loaded tile's arrays. *)
Fixpoint load_pixels_loop (C : Collaborators) (items : Items C) (band : string)
    (tiles : list Tile) (acc : list (list float * list float * list float))
    : result (list (list float * list float * list float)) :=
  match tiles with
  | [] => Ok acc
  | tile :: rest =>
      px ← load_tile_pixels C items band 30 tile;
      load_pixels_loop C items band rest
        (match px with
         | Some p => acc ++ [p]
         | None => acc
         end)
  end.

Definition np_concatenate (arrays : list (list float)) : result (list float) :=
  match arrays with
  | [] => Raise (ValueError "need at least one array to concatenate")
  | _ => Ok (concat arrays)
  end.

Definition single_pass (C : Collaborators) (items : Items C) (tiles : list Tile)
    (band : string) (h3_res : Z) : result table :=
  loaded ← load_pixels_loop C items band tiles [];
  lat_arr ← np_concatenate ((λ p, p.1.1) <$> loaded);
  lng_arr ← np_concatenate ((λ p, p.1.2) <$> loaded);
  elev_arr ← np_concatenate ((λ p, p.2) <$> loaded);
  pixels_table ← pa_table lat_arr lng_arr elev_arr;
  con ← connect_install_h3 C;
  _ ← sql_runs C con pixels_table;
  Ok (tile_query C h3_res pixels_table).

(** The number of samples of a tile that fall in cell [h]. *)
Definition samples_in_cell (C : Collaborators) (h3_res : Z) (h : hex_id)
    (tile_pa : list GeoSample) : nat :=
  length (group_of h (keyed C h3_res tile_pa)).

(** The sample table of a tile, when the tile loads and its columns agree. *)
Definition tile_samples (C : Collaborators) (items : Items C) (band : string)
    (resolution : Z) (tile : Tile) : list (list GeoSample) :=
  match load_tile_pixels C items band resolution tile with
  | Ok (Some (lats, lons, elevs)) =>
      match pa_table lats lons elevs with
      | Ok tile_pa => [tile_pa]
      | Raise _ => []
      end
  | _ => []
  end.

(** The arrays the single-pass loop appends for a tile. *)
Definition loaded (C : Collaborators) (items : Items C) (band : string) (tile : Tile)
    : list (list float * list float * list float) :=
  match load_tile_pixels C items band 30 tile with
  | Ok (Some p) => [p]
  | _ => []
  end.

(** The samples of cell [h], tile by tile: for each of the tiles, in the
    order given, that has samples in [h], the elevations of these samples.
    Both pipelines are compared with the tiles loaded at resolution 30, the
    one the single-pass cell uses. *)
Definition cell_groups (C : Collaborators) (items : Items C) (band : string)
    (h3_res : Z) (h : hex_id) (tiles : list Tile) : list (list float) :=
  filter (λ g, (0 < length g)%nat)
    ((λ tile_pa, group_of h (keyed C h3_res tile_pa))
       <$> (tiles ≫= tile_samples C items band 30)).

(** ** What the pool prints (elevation_h3_clean.py, lines 199-216) *)

Inductive output : Type :=
| Processed (completed total : nat)
| PreMergeHexCount (rows : nat)
| FinalH3Hexagons (hexagons : nat).

#[global] Instance output_eq_dec : EqDecision output.
Proof. solve_decision. Defined.

(** The loop of [collect_results] with its counter and its progress lines:
    a line after every hundredth completed task and after the last one.
    What was printed before an exception stays printed. *)
Fixpoint collect_results_log (futures : list (result (option table))) (batches : list table)
    (completed total : nat) : list output * result (list table) :=
  match futures with
  | [] => ([], Ok batches)
  | future :: rest =>
      match future with
      | Raise e => ([], Raise e)
      | Ok res =>
          let batches :=
            match res with
            | Some t => if decide (0 < length t)%nat then batches ++ [t] else batches
            | None => batches
            end in
          let completed := S completed in
          let line :=
            if decide (completed `mod` 100 = 0 ∨ completed = total)%nat
            then [Processed completed total] else [] in
          let rest_run := collect_results_log rest batches completed total in
          (line ++ rest_run.1, rest_run.2)
      end
  end.

(** [process_all_tiles] with everything it prints. *)
Definition process_all_tiles_log (C : Collaborators) (items : Items C) (tiles : list Tile)
    (band : string) (h3_res resolution : Z) : list output * result table :=
  let total := length tiles in
  let futures := task C items band h3_res resolution <$> as_completed C tiles in
  let collected := collect_results_log futures [] 0 total in
  match collected.2 with
  | Raise e => (collected.1, Raise e)
  | Ok [] => (collected.1, Raise (RuntimeError "No tiles produced data"))
  | Ok batches =>
      let combined := concat batches in
      let hex_result := group_by_avg combined in
      (collected.1 ++ [PreMergeHexCount (length combined);
                       FinalH3Hexagons (length hex_result)],
       Ok hex_result)
  end.

(** The same collaborators with another completion order of the pool. *)
Definition with_schedule (C : Collaborators) (order : list Tile → list Tile)
    (order_perm : ∀ l, order l ≡ₚ l) : Collaborators :=
  {| Items := Items C; Dataset := Dataset C; Session := Session C;
     average_hexagon_edge_length := average_hexagon_edge_length C;
     stac_search := stac_search C;
     tms_tiles := tms_tiles C;
     tms_bounds := tms_bounds C;
     odc_stac_load := odc_stac_load C;
     max_over_time := max_over_time C;
     transform := transform C;
     install_h3 := install_h3 C;
     get_con := get_con C;
     connect_install_h3 := connect_install_h3 C;
     sql_runs := sql_runs C;
     h3_latlng_to_cell := h3_latlng_to_cell C;
     as_completed := order;
     as_completed_perm := order_perm |}.

(** The samples of a grid, row by row: the value at row [i] and column [j]
    with the reprojection [f] of the point (x[j], y[i]). *)
Definition pixel_samples (f : float → float → float * float) (arr : SampleGrid)
    : list GeoSample :=
  concat
    (zip_with
       (λ y row, zip_with (λ x v, mkSample (f x y).2 (f x y).1 v) (x_coords arr) row)
       (y_coords arr) (vals arr)).

(** ** Fixtures: stub collaborators for the examples *)

#[global] Instance result_eq_dec {A} `{EqDecision A} : EqDecision (result A).
Proof. solve_decision. Defined.

(** A stub of the h3 edge-length table that knows two resolutions (metres). *)
Definition stub_edge_length (h3_res : Z) : result float :=
  if decide (h3_res = 9) then Ok (Q2Qc (200786148 # 1000000))
  else if decide (h3_res = 11) then Ok (Q2Qc (28663897 # 1000000))
  else Raise (LibraryError "H3ResDomainError").

(** Tile (x, y) covers the unit square with lower-left corner (x, y). *)
Definition stub_bounds (t : Tile) : BBox :=
  mkBBox (Z2f (tile_x t)) (Z2f (tile_y t)) (Z2f (tile_x t + 1)) (Z2f (tile_y t + 1)).

(** Stub collaborators: the raster source, the cell function, the tile
    splitter and the per-tile session are arguments; the reprojection is the
    identity and the pool completes the tasks in reverse order. *)
Definition stub (grid : BBox → result SampleGrid) (cell : float → float → Z → hex_id)
    (split : BBox → Z → result (list Tile)) (run : list GeoSample → result unit)
    : Collaborators :=
  {| Items := unit; Dataset := SampleGrid; Session := unit;
     average_hexagon_edge_length := stub_edge_length;
     stac_search := λ _ _, Ok ();
     tms_tiles := split;
     tms_bounds := stub_bounds;
     odc_stac_load := λ _ _ _ b, grid b;
     max_over_time := λ ds _, Ok ds;
     transform := λ xs ys, Ok (xs, ys);
     install_h3 := Ok ();
     get_con := Ok ();
     connect_install_h3 := Ok ();
     sql_runs := λ _ tile_pa, run tile_pa;
     h3_latlng_to_cell := cell;
     as_completed := reverse;
     as_completed_perm := reverse_Permutation |}.

Definition tile0 : Tile := mkTile 0 0 12.
Definition tile1 : Tile := mkTile 1 0 12.
Definition tile2 : Tile := mkTile 2 0 12.

(** Cells one and a half units wide: cell 1 covers the longitudes from 1/2
    up to 2. *)
Definition wide_cell (la lo : float) (h3_res : Z) : hex_id :=
  Z.to_N (Qfloor ((lo + 1) * Q2Qc (2 # 3))%Qc).

(** Cells one unit wide, centred on the tile boundaries. *)
Definition unit_cell (la lo : float) (h3_res : Z) : hex_id :=
  Z.to_N (Qfloor (lo + Q2Qc (1 # 2))%Qc).

(** Two pixels per tile, at a quarter and three quarters of its width;
    tile 2 has no coverage. *)
Definition two_pixel_grid (b : BBox) : result SampleGrid :=
  if decide (west b = Z2f 0) then
    Ok (mkGrid [[Z2f 10; Z2f 0]] [Q2Qc (1 # 4); Q2Qc (3 # 4)] [Q2Qc (1 # 2)])
  else if decide (west b = Z2f 1) then
    Ok (mkGrid [[Z2f 3; Z2f 3]] [Q2Qc (5 # 4); Q2Qc (7 # 4)] [Q2Qc (1 # 2)])
  else Raise (LibraryError "no coverage").

Definition split_three (b : BBox) (zoom : Z) : result (list Tile) :=
  Ok [tile0; tile1; tile2].

(** A session that runs every query. *)
Definition accept_all (tile_pa : list GeoSample) : result unit := Ok ().

(** A session that refuses every query, as one out of memory does. *)
Definition reject_all (tile_pa : list GeoSample) : result unit :=
  Raise (LibraryError "duckdb.OutOfMemoryException").

(** Tile 0 loads a raster with no pixels; the other tiles have no coverage. *)
Definition empty_grid (b : BBox) : result SampleGrid :=
  if decide (west b = Z2f 0) then Ok (mkGrid [] [] [])
  else Raise (LibraryError "no coverage").

(** A configuration whose bounding box has west > east and south > north. *)
Definition inverted_config : Config :=
  mkConfig (mkBBox (Z2f 1) (Z2f 1) (Z2f 0) (Z2f 0)) "3dep-seamless" "data" 11 10 12.

(** The binary64 value of the literal n/10, as 0.1, 0.2 and 0.3 are read. *)
Definition tenths (n : Z) : PrimFloat.float :=
  PrimFloat.div (PrimFloat.of_uint63 (Uint63.of_Z n)) (PrimFloat.of_uint63 (Uint63.of_Z 10)).

(** A table with the single row (7, n/10). *)
Definition one_row (n : Z) : list (hex_id * PrimFloat.float) := [(7%N, tenths n)].

(** * Proofs *)

Section Rounding.

(** The integer nearest to [x], in terms of numerator and denominator. *)
Lemma py_round_bounds (x : float) :
  let n := Qnum (this x) in
  let d := Z.pos (Qden (this x)) in
  let R := py_round x in
  - d ≤ 2 * (n - R * d) ≤ d ∧
  (2 * (n - R * d) = d ∨ 2 * (n - R * d) = - d → Z.even R = true).
Proof.
  intros n d R. subst R. unfold py_round. fold n d.
  assert (Hd : 0 < d) by (unfold d; lia).
  pose proof (Z.div_mod n d ltac:(lia)) as Hdm.
  pose proof (Z.mod_pos_bound n d Hd) as Hm.
  destruct (Z.compare_spec (2 * (n `mod` d)) d) as [He|Hl|Hg].
  - destruct (Z.even (n `div` d)) eqn:Hev.
    + split; [nia|]. done.
    + split; [nia|]. intros _. rewrite Z.even_add, Hev. done.
  - split; [nia|]. intros [H|H]; nia.
  - split; [nia|]. intros [H|H]; nia.
Qed.

Lemma py_round_half (x : float) :
  (Z2f (py_round x) * 2 - 1 ≤ 2 * x)%Qc ∧ (2 * x ≤ Z2f (py_round x) * 2 + 1)%Qc.
Proof.
  destruct (py_round_bounds x) as [[Hlo Hhi] _].
  set (R := py_round x) in *.
  unfold Qcle. unfold Z2f, Qc_of_Z. simpl.
  rewrite !Qred_correct.
  destruct x as [[n d] Hc]. simpl in *.
  unfold Qle; simpl. split; nia.
Qed.

Lemma py_round_mono (x y : float) : (x ≤ y)%Qc → py_round x ≤ py_round y.
Proof.
  intros Hxy.
  destruct (py_round_bounds x) as [[Hxl Hxh] Hxe].
  destruct (py_round_bounds y) as [[Hyl Hyh] Hye].
  set (R1 := py_round x) in *. set (R2 := py_round y) in *.
  unfold Qcle, Qle in Hxy.
  destruct x as [[a b] Hx], y as [[c d] Hy]; simpl in *.
  destruct (decide (R1 ≤ R2)) as [|Hgt]; [done|exfalso].
  assert (HR : R2 + 1 ≤ R1) by lia.
  assert (E1 : (2 * R1 - 1) * Z.pos b * Z.pos d ≤ 2 * a * Z.pos d) by nia.
  assert (E2 : 2 * c * Z.pos b ≤ (2 * R2 + 1) * Z.pos d * Z.pos b) by nia.
  assert (E3 : (2 * R1 - 1) * (Z.pos b * Z.pos d) ≤ (2 * R2 + 1) * (Z.pos b * Z.pos d)) by nia.
  assert (E4 : R1 = R2 + 1) by nia.
  assert (Ta : 2 * (a - R1 * Z.pos b) = - Z.pos b) by nia.
  assert (Tc : 2 * (c - R2 * Z.pos d) = Z.pos d) by nia.
  specialize (Hxe (or_intror Ta)). specialize (Hye (or_introl Tc)).
  rewrite E4, Z.even_add, Hye in Hxe. done.
Qed.

End Rounding.

Example py_round_ties :
  py_round (Q2Qc (1 # 2)) = 0 ∧ py_round (Q2Qc (3 # 2)) = 2 ∧
  py_round (Q2Qc (5 # 2)) = 2 ∧ py_round (Q2Qc (-3 # 2)) = -2 ∧
  py_round (Q2Qc (26 # 10)) = 3.
Proof. repeat split; reflexivity. Qed.

(** The planner at the notebook's defaults, with the stub edge lengths, and
    at arguments it does not survive. *)
Example calculate_resolution_for_h3_defaults :
  let C := stub two_pixel_grid unit_cell split_three accept_all in
  calculate_resolution_for_h3 C 11 10 6 = Ok 10 ∧
  calculate_resolution_for_h3 C 9 10 6 = Ok 30 ∧
  calculate_resolution_for_h3 C 9 10 0 = Raise ZeroDivisionError ∧
  calculate_resolution_for_h3 C 11 (-10) 6 = Raise ZeroDivisionError ∧
  calculate_resolution_for_h3 C 11 (10 ^ 400) 6 = Raise OverflowError ∧
  calculate_resolution_for_h3 C 11 10 (10 ^ 400) = Raise OverflowError ∧
  calculate_resolution_for_h3 C 4 10 6 = Raise (LibraryError "H3ResDomainError").
Proof. repeat split; vm_compute; reflexivity. Qed.

(** The last int that converts, and the first that does not. *)
Example float_of_int_limit :
  float_of_int (float_limit - 1) = Ok (Z2f (float_limit - 1)) ∧
  float_of_int float_limit = Raise OverflowError ∧
  float_of_int (- float_limit) = Raise OverflowError.
Proof. repeat split; vm_compute; reflexivity. Qed.

Section Planner.

Context (C : Collaborators).

Lemma Z2f_eq_0 (n : Z) : Z2f n = 0%Qc ↔ n = 0.
Proof. unfold Z2f. rewrite <- Z2Qc_inj_0. apply Z2Qc_inj_iff. Qed.

Lemma Z2f_pos (n : Z) : 0 < n → (0 < Z2f n)%Qc.
Proof. intros Hn. apply (Z2Qc_inj_lt 0 n) in Hn. by rewrite Z2Qc_inj_0 in Hn. Qed.

Lemma float_limit_pos : 0 < float_limit.
Proof. reflexivity. Qed.

Lemma float_of_int_Ok (n : Z) : Z.abs n < float_limit → float_of_int n = Ok (Z2f n).
Proof. intros Hn. unfold float_of_int. by rewrite decide_True. Qed.

Lemma float_of_int_Raise (n : Z) :
  float_limit ≤ Z.abs n → float_of_int n = Raise OverflowError.
Proof. intros Hn. unfold float_of_int. rewrite decide_False; [done|lia]. Qed.

Lemma py_div_Ok (a : float) (n : Z) :
  n ≠ 0 → Z.abs n < float_limit → py_div a n = Ok (a / Z2f n)%Qc.
Proof.
  intros Hn Hl. unfold py_div. rewrite float_of_int_Ok by done.
  change (Ok (Z2f n) ≫= _)
    with (if decide (Z2f n = 0%Qc) then Raise ZeroDivisionError else Ok (a / Z2f n)%Qc).
  destruct (decide _) as [E|]; [|done]. by apply Z2f_eq_0 in E.
Qed.

Lemma py_div_zero (a : float) : py_div a 0 = Raise ZeroDivisionError.
Proof. reflexivity. Qed.

Lemma py_div_overflow (a : float) (n : Z) :
  float_limit ≤ Z.abs n → py_div a n = Raise OverflowError.
Proof. intros Hn. unfold py_div. by rewrite float_of_int_Raise. Qed.

(** A division raises one of its two errors or returns the quotient. *)
Lemma py_div_outcome (a : float) (n : Z) :
  (n = 0 ∧ py_div a n = Raise ZeroDivisionError) ∨
  (float_limit ≤ Z.abs n ∧ py_div a n = Raise OverflowError) ∨
  (n ≠ 0 ∧ Z.abs n < float_limit ∧ py_div a n = Ok (a / Z2f n)%Qc).
Proof.
  destruct (decide (n = 0)) as [->|Hn]; [left; split; [done|apply py_div_zero]|].
  destruct (decide (Z.abs n < float_limit)) as [Hl|Hl].
  - right; right. by rewrite py_div_Ok.
  - right; left. split; [lia|]. apply py_div_overflow. lia.
Qed.

Lemma steps_times_native (t : float) (n : Z) :
  0 < n → (t / Z2f n * Z2f n = t)%Qc.
Proof.
  intros Hn. field. intros E. apply Z2f_eq_0 in E. lia.
Qed.

Lemma round_steps_nearest (t : float) (n : Z) :
  0 < n → nearest_multiple n t (py_round (t / Z2f n)%Qc * n).
Proof.
  intros Hn. set (q := (t / Z2f n)%Qc). set (R := py_round q).
  destruct (py_round_half q) as [Hlo Hhi]. fold R in Hlo, Hhi.
  assert (Ht : (q * Z2f n = t)%Qc) by (by apply steps_times_native).
  assert (Hn' : (0 < Z2f n)%Qc) by (by apply Z2f_pos).
  split; [by exists R|].
  replace (Z2f (2 * (R * n) - n)) with ((Z2f R * 2 - 1) * Z2f n)%Qc.
  2:{ unfold Z2f. rewrite Z2Qc_inj_sub, !Z2Qc_inj_mul, Z2Qc_inj_2. ring. }
  replace (Z2f (2 * (R * n) + n)) with ((Z2f R * 2 + 1) * Z2f n)%Qc.
  2:{ unfold Z2f. rewrite Z2Qc_inj_add, !Z2Qc_inj_mul, Z2Qc_inj_2. ring. }
  replace (2 * t)%Qc with ((2 * q) * Z2f n)%Qc by (rewrite <- Ht; ring).
  split; apply Qcmult_le_compat_r; auto using Qclt_le_weak.
Qed.

Lemma Qcdiv_le_mono_r (x y a : float) : (0 < a)%Qc → (x ≤ y)%Qc → (x / a ≤ y / a)%Qc.
Proof.
  intros Ha Hxy. apply Qcmult_le_compat_r; [done|].
  by apply Qclt_le_weak, Qcinv_pos.
Qed.

Lemma Qcinv_antitone (a b : float) : (0 < a)%Qc → (a ≤ b)%Qc → (/ b ≤ / a)%Qc.
Proof.
  intros Ha Hab.
  assert (Hb : (0 < b)%Qc) by (by eapply Qclt_le_trans).
  assert (Ha0 : a ≠ 0%Qc) by (intros ->; by apply Qclt_not_le in Ha).
  assert (Hb0 : b ≠ 0%Qc) by (intros ->; by apply Qclt_not_le in Hb).
  apply (Qcmult_le_mono_pos_r _ _ (a * b)%Qc); [by apply Qcmult_pos_pos|].
  replace (/ b * (a * b))%Qc with a by (by field).
  replace (/ a * (a * b))%Qc with b by (by field).
  done.
Qed.

Lemma py_round_0 : py_round 0%Qc = 0.
Proof. reflexivity. Qed.

(** The number of native steps shrinks as the pixels per edge grow. *)
Lemma steps_antitone (e : float) (n p1 p2 : Z) :
  (0 ≤ e)%Qc → 0 < n → 0 < p1 → p1 ≤ p2 →
  (e / Z2f p2 / Z2f n ≤ e / Z2f p1 / Z2f n)%Qc.
Proof.
  intros He Hn Hp1 Hp12. apply Qcdiv_le_mono_r; [by apply Z2f_pos|].
  apply Qcmult_le_mono_nonneg_l; [done|].
  apply Qcinv_antitone; [by apply Z2f_pos|].
  unfold Z2f. by apply (proj1 (Z2Qc_inj_le p1 p2)).
Qed.

Lemma steps_nonpos (e : float) (n p : Z) :
  (e ≤ 0)%Qc → 0 < n → 0 < p → py_round (e / Z2f p / Z2f n)%Qc ≤ 0.
Proof.
  intros He Hn Hp. rewrite <- py_round_0. apply py_round_mono.
  replace 0%Qc with (0 / Z2f p / Z2f n)%Qc by (unfold Qcdiv; ring).
  apply Qcdiv_le_mono_r; [by apply Z2f_pos|].
  by apply Qcdiv_le_mono_r; [apply Z2f_pos|].
Qed.

(** The target is not above a non-negative edge length. *)
Lemma target_le_edge (e : float) (p : Z) : (0 ≤ e)%Qc → 0 < p → (e / Z2f p ≤ e)%Qc.
Proof.
  intros He Hp.
  assert (HP : (0 < Z2f p)%Qc) by (by apply Z2f_pos).
  assert (H1 : (1 ≤ Z2f p)%Qc).
  { rewrite <- Z2Qc_inj_1. apply (proj1 (Z2Qc_inj_le 1 p)). lia. }
  apply (Qcmult_le_mono_pos_r _ _ (Z2f p) HP).
  replace (e / Z2f p * Z2f p)%Qc with (e * 1)%Qc.
  - by apply Qcmult_le_mono_nonneg_l.
  - field. intros E. apply Z2f_eq_0 in E. lia.
Qed.

(** The resolution the planner settles on converts to float when the edge
    length and the native resolution leave room for it. *)
Lemma resolution_in_range (e : float) (n p : Z) :
  0 < n < float_limit → 0 < p → (e + Z2f n ≤ Z2f float_limit)%Qc →
  0 < Z.max (py_round (e / Z2f p / Z2f n)%Qc * n) n < float_limit.
Proof.
  intros [Hn HnL] Hp Hroom.
  set (m := py_round (e / Z2f p / Z2f n)%Qc * n).
  assert (Hm : m < float_limit); [|lia].
  destruct (Qclt_le_dec e 0) as [Hneg|Hpos].
  - apply Qclt_le_weak in Hneg.
    pose proof (steps_nonpos e n p Hneg ltac:(lia) Hp). unfold m. nia.
  - destruct (round_steps_nearest (e / Z2f p)%Qc n ltac:(lia)) as (_ & Hlo & _).
    fold m in Hlo.
    pose proof (target_le_edge e p Hpos Hp) as Ht.
    assert (HN : (0 < Z2f n)%Qc) by (apply Z2f_pos; lia).
    assert (Hle : (Z2f (2 * m - n) ≤ Z2f (2 * float_limit - 2 * n))%Qc).
    { unfold Z2f in *.
      rewrite !Z2Qc_inj_sub, !Z2Qc_inj_mul, Z2Qc_inj_2 in *.
      revert Hlo Ht Hroom HN.
      generalize (Qc_of_Z m) (Qc_of_Z n) (Qc_of_Z float_limit) (e / Qc_of_Z p)%Qc.
      intros M N L T. unfold Qcle, Qclt, Qcplus, Qcmult, Qcminus, Qcopp. simpl.
      rewrite ?Qred_correct. intros. lra. }
    apply (proj2 (Z2Qc_inj_le _ _)) in Hle. lia.
Qed.

(** What the planner computes on its domain: positive ints that convert to
    float, and an edge length that leaves the result in the float range. *)
Lemma calculate_resolution_for_h3_eq (h3_res n p : Z) (e : float) :
  average_hexagon_edge_length C h3_res = Ok e →
  0 < n < float_limit → 0 < p < float_limit → (e + Z2f n ≤ Z2f float_limit)%Qc →
  calculate_resolution_for_h3 C h3_res n p
  = Ok (Z.max (py_round (e / Z2f p / Z2f n)%Qc * n) n).
Proof.
  intros He Hn Hp Hroom. unfold calculate_resolution_for_h3. rewrite He.
  pose proof (resolution_in_range e n p Hn ltac:(lia) Hroom) as Hr.
  change (Ok e ≫= ?k) with (k e). cbv beta.
  rewrite (py_div_Ok e p) by lia.
  change (Ok ?x ≫= ?k) with (k x). cbv beta.
  rewrite (py_div_Ok _ n) by lia.
  change (Ok ?x ≫= ?k) with (k x). cbv beta zeta.
  rewrite py_div_Ok by lia. done.
Qed.

End Planner.

(** C7.  For a known hex resolution, a positive native resolution and a
    positive number of pixels per edge, both within the range of the ints
    that convert to float, and an edge length that leaves edge + native
    within it, [calculate_resolution_for_h3] returns the multiple of
    [native_resolution] nearest to edge length / pixels_per_edge, raised to
    [native_resolution] when it is below it; the result is a positive
    multiple of [native_resolution]. *)
Theorem calculate_resolution_for_h3_nearest_multiple
    (C : Collaborators) (h3_res native_resolution pixels_per_hex_edge : Z) (hex_edge_m : float) :
  average_hexagon_edge_length C h3_res = Ok hex_edge_m →
  0 < native_resolution < float_limit →
  0 < pixels_per_hex_edge < float_limit →
  (hex_edge_m + Z2f native_resolution ≤ Z2f float_limit)%Qc →
  ∃ m k : Z,
    nearest_multiple native_resolution (hex_edge_m / Z2f pixels_per_hex_edge)%Qc m ∧
    calculate_resolution_for_h3 C h3_res native_resolution pixels_per_hex_edge
      = Ok (Z.max m native_resolution) ∧
    Z.max m native_resolution = k * native_resolution ∧ 1 ≤ k ∧
    native_resolution ≤ Z.max m native_resolution.
Proof.
  intros He Hn Hp Hroom.
  set (R := py_round (hex_edge_m / Z2f pixels_per_hex_edge / Z2f native_resolution)%Qc).
  exists (R * native_resolution), (Z.max R 1).
  split; [apply round_steps_nearest; lia|].
  split; [by apply calculate_resolution_for_h3_eq|].
  split; [nia|]. lia.
Qed.

Lemma calculate_resolution_for_h3_nearest_multiple_witness :
  let C := stub two_pixel_grid unit_cell split_three accept_all in
  let hex_edge_m := Q2Qc (200786148 # 1000000) in
  average_hexagon_edge_length C 9 = Ok hex_edge_m ∧
  0 < 10 < float_limit ∧ 0 < 6 < float_limit ∧
  (hex_edge_m + Z2f 10 ≤ Z2f float_limit)%Qc ∧
  ∃ m k : Z,
    nearest_multiple 10 (hex_edge_m / Z2f 6)%Qc m ∧
    calculate_resolution_for_h3 C 9 10 6 = Ok (Z.max m 10) ∧
    Z.max m 10 = k * 10 ∧ 1 ≤ k ∧ 10 ≤ Z.max m 10.
Proof.
  intros C hex_edge_m.
  assert (He : average_hexagon_edge_length C 9 = Ok hex_edge_m) by reflexivity.
  assert (Hn : 0 < 10 < float_limit) by (split; reflexivity).
  assert (Hp : 0 < 6 < float_limit) by (split; reflexivity).
  assert (Hroom : (hex_edge_m + Z2f 10 ≤ Z2f float_limit)%Qc) by (vm_compute; discriminate).
  split; [exact He|]. split; [exact Hn|]. split; [exact Hp|]. split; [exact Hroom|].
  exact (calculate_resolution_for_h3_nearest_multiple C 9 10 6 hex_edge_m He Hn Hp Hroom).
Defined.

(** C8 (amended).  With the hex resolution and a positive native resolution
    fixed, more pixels per edge never give a coarser resolution, as long as
    the numbers of pixels are positive: for 0 < p1 ≤ p2, within the range of
    the ints that convert to float, the resolution at p2 is at most the
    resolution at p1, and both are at least [native_resolution]. *)
Theorem calculate_resolution_for_h3_antitone
    (C : Collaborators) (h3_res native_resolution p1 p2 : Z) (hex_edge_m : float) :
  average_hexagon_edge_length C h3_res = Ok hex_edge_m →
  0 < native_resolution < float_limit →
  (hex_edge_m + Z2f native_resolution ≤ Z2f float_limit)%Qc →
  0 < p1 → p1 ≤ p2 → p2 < float_limit →
  ∃ r1 r2 : Z,
    calculate_resolution_for_h3 C h3_res native_resolution p1 = Ok r1 ∧
    calculate_resolution_for_h3 C h3_res native_resolution p2 = Ok r2 ∧
    r2 ≤ r1 ∧ native_resolution ≤ r2 ∧ native_resolution ≤ r1.
Proof.
  intros He Hn Hroom Hp1 Hp12 Hp2.
  eexists _, _. split; [apply calculate_resolution_for_h3_eq; [done|done|lia|done]|].
  split; [apply calculate_resolution_for_h3_eq; [done|done|lia|done]|].
  split; [|lia].
  set (q1 := (hex_edge_m / Z2f p1 / Z2f native_resolution)%Qc).
  set (q2 := (hex_edge_m / Z2f p2 / Z2f native_resolution)%Qc).
  destruct (Qclt_le_dec hex_edge_m 0) as [Hneg|Hpos].
  - (* a negative edge length: both are floored at the native resolution *)
    apply Qclt_le_weak in Hneg.
    pose proof (steps_nonpos hex_edge_m native_resolution p1 Hneg ltac:(lia) Hp1).
    pose proof (steps_nonpos hex_edge_m native_resolution p2 Hneg ltac:(lia) ltac:(lia)).
    fold q1 in H. fold q2 in H0. nia.
  - pose proof (steps_antitone hex_edge_m native_resolution p1 p2 Hpos ltac:(lia) Hp1 Hp12)
      as Hq.
    apply py_round_mono in Hq. fold q1 q2 in Hq. nia.
Qed.

(** The input that refutes C8 as stated: with -1 ≤ 1 pixels per edge, at
    hex resolution 9 and native resolution 10, the planner returns 10 at -1
    and 200 at 1; the resolution at the larger number is the coarser. *)
Lemma negative_pixels_per_edge_are_finer :
  let C := stub two_pixel_grid unit_cell split_three accept_all in
  -1 ≤ 1 ∧
  calculate_resolution_for_h3 C 9 10 (-1) = Ok 10 ∧
  calculate_resolution_for_h3 C 9 10 1 = Ok 200 ∧
  ¬ 200 ≤ 10.
Proof. intros C. split; [lia|]. split; [|split]; [vm_compute; reflexivity..|lia]. Qed.

Lemma calculate_resolution_for_h3_antitone_witness :
  let C := stub two_pixel_grid unit_cell split_three accept_all in
  let hex_edge_m := Q2Qc (200786148 # 1000000) in
  average_hexagon_edge_length C 9 = Ok hex_edge_m ∧
  0 < 10 < float_limit ∧
  (hex_edge_m + Z2f 10 ≤ Z2f float_limit)%Qc ∧
  0 < 2 ∧ 2 ≤ 6 ∧ 6 < float_limit ∧
  ∃ r1 r2 : Z,
    calculate_resolution_for_h3 C 9 10 2 = Ok r1 ∧
    calculate_resolution_for_h3 C 9 10 6 = Ok r2 ∧
    r2 ≤ r1 ∧ 10 ≤ r2 ∧ 10 ≤ r1.
Proof.
  intros C hex_edge_m.
  assert (He : average_hexagon_edge_length C 9 = Ok hex_edge_m) by reflexivity.
  assert (Hn : 0 < 10 < float_limit) by (split; reflexivity).
  assert (Hroom : (hex_edge_m + Z2f 10 ≤ Z2f float_limit)%Qc) by (vm_compute; discriminate).
  assert (Hp1 : 0 < 2) by lia.
  assert (Hp12 : 2 ≤ 6) by lia.
  assert (Hp2 : 6 < float_limit) by reflexivity.
  split; [exact He|]. split; [exact Hn|]. split; [exact Hroom|].
  split; [exact Hp1|]. split; [exact Hp12|]. split; [exact Hp2|].
  exact (calculate_resolution_for_h3_antitone C 9 10 2 6 hex_edge_m He Hn Hroom Hp1 Hp12 Hp2).
Defined.

Section Aggregation.

Implicit Types (rows : table) (h : hex_id).

Lemma fsum_app (a b : list float) : fsum (a ++ b) = (fsum a + fsum b)%Qc.
Proof.
  induction a as [|x a IH]; simpl; [by rewrite Qcplus_0_l|].
  rewrite IH. ring.
Qed.

Lemma fsum_perm (a b : list float) : a ≡ₚ b → fsum a = fsum b.
Proof.
  induction 1 as [|x a b _ IH|x y a|a b c _ IH1 _ IH2]; simpl.
  - done.
  - by rewrite IH.
  - ring.
  - by rewrite IH1.
Qed.

Lemma AVG_perm (a b : list float) : a ≡ₚ b → AVG a = AVG b.
Proof.
  intros Hp. unfold AVG. by rewrite (fsum_perm _ _ Hp), (Permutation_length Hp).
Qed.

Lemma group_of_app h rows1 rows2 :
  group_of h (rows1 ++ rows2) = group_of h rows1 ++ group_of h rows2.
Proof. unfold group_of. by rewrite filter_app, fmap_app. Qed.

Lemma group_of_perm h rows1 rows2 :
  rows1 ≡ₚ rows2 → group_of h rows1 ≡ₚ group_of h rows2.
Proof. intros Hp. unfold group_of. by rewrite Hp. Qed.

Lemma group_of_nil_iff h rows : group_of h rows = [] ↔ h ∉ rows.*1.
Proof.
  unfold group_of. induction rows as [|[k v] rows IH]; simpl.
  - split; [intros _; apply not_elem_of_nil | done].
  - rewrite filter_cons. simpl. destruct (decide (k = h)) as [->|Hne]; simpl.
    + split; [done|]. intros Hn. exfalso. apply Hn. left.
    + rewrite IH, not_elem_of_cons. split; [intros ?; split; [congruence|done] | by intros [_ ?]].
Qed.

Lemma keyed_fmap_keys (f : hex_id → float) (ks : list hex_id) :
  ((λ k, (k, f k)) <$> ks).*1 = ks.
Proof. induction ks as [|k ks IH]; simpl; [done|]. by f_equal. Qed.

Lemma group_by_avg_keys rows : (group_by_avg rows).*1 = remove_dups (rows.*1).
Proof. apply keyed_fmap_keys. Qed.

Lemma group_by_avg_NoDup rows : NoDup (group_by_avg rows).*1.
Proof. rewrite group_by_avg_keys. apply NoDup_remove_dups. Qed.

Lemma elem_of_group_by_avg h v rows :
  (h, v) ∈ group_by_avg rows ↔ h ∈ rows.*1 ∧ v = AVG (group_of h rows).
Proof.
  unfold group_by_avg. rewrite list_elem_of_fmap. split.
  - intros (k & Heq & Hk). simplify_eq. split; [|done]. by apply elem_of_remove_dups.
  - intros [Hk ->]. exists h. split; [done|]. by apply elem_of_remove_dups.
Qed.

(** The merged value of a hex id is the mean over its rows, and only the
    hex ids of the input have one. *)
Lemma hex_result_group_by_avg rows h :
  hex_result (group_by_avg rows) !! h
  = if decide (h ∈ rows.*1) then Some (AVG (group_of h rows)) else None.
Proof.
  unfold hex_result. destruct (decide _) as [Hin|Hnin].
  - apply elem_of_list_to_map; [apply group_by_avg_NoDup|].
    by apply elem_of_group_by_avg.
  - apply not_elem_of_list_to_map. by rewrite group_by_avg_keys, elem_of_remove_dups.
Qed.

Lemma hex_result_perm rows1 rows2 :
  rows1 ≡ₚ rows2 → hex_result (group_by_avg rows1) = hex_result (group_by_avg rows2).
Proof.
  intros Hp. apply map_eq. intros h. rewrite !hex_result_group_by_avg.
  assert (Hk : h ∈ rows1.*1 ↔ h ∈ rows2.*1) by (by rewrite Hp).
  destruct (decide (h ∈ rows1.*1)), (decide (h ∈ rows2.*1)); try tauto.
  f_equal. apply AVG_perm. by apply group_of_perm.
Qed.

(** A grouped table has one row per key: its group for [h] is the single
    mean of the input's group, or nothing. *)
Lemma group_of_group_by_avg h rows :
  group_of h (group_by_avg rows)
  = if decide (h ∈ rows.*1) then [AVG (group_of h rows)] else [].
Proof.
  destruct (decide _) as [Hin|Hnin].
  - unfold group_of, group_by_avg.
    apply elem_of_remove_dups in Hin.
    pose proof (NoDup_remove_dups (rows.*1)) as Hnd.
    induction (remove_dups (rows.*1)) as [|k ks IH]; [by apply elem_of_nil in Hin|].
    apply NoDup_cons in Hnd as [Hk Hnd].
    rewrite fmap_cons, filter_cons. simpl.
    destruct (decide (k = h)) as [->|Hne].
    + simpl. f_equal.
      assert (Hnone : h ∉ ((λ k, (k, AVG (group_of k rows))) <$> ks).*1).
      { by rewrite keyed_fmap_keys. }
      apply group_of_nil_iff in Hnone. apply Hnone.
    + apply IH; [|done]. apply elem_of_cons in Hin as [->|]; done.
  - apply group_of_nil_iff. by rewrite group_by_avg_keys, elem_of_remove_dups.
Qed.

End Aggregation.

Section Merger.

Implicit Types (batches : list table) (h : hex_id).

Lemma merge_batches_Ok batches :
  batches ≠ [] → merge_batches batches = Ok (group_by_avg (concat batches)).
Proof. by destruct batches. Qed.

Lemma elem_of_concat_keys h batches :
  h ∈ (concat batches).*1 ↔ ∃ t : table, t ∈ batches ∧ h ∈ t.*1.
Proof.
  induction batches as [|t batches IH]; simpl.
  - split; [by intros ?%elem_of_nil | by intros (? & ?%elem_of_nil & _)].
  - rewrite fmap_app, elem_of_app, IH. split.
    + intros [Ht|(t' & Ht' & Hh)]; [exists t | exists t']; split; try done; by constructor.
    + intros (t' & [->|Ht']%elem_of_cons & Hh); [by left|right; by exists t'].
Qed.

Lemma concat_keys_union batches :
  (list_to_set (concat batches).*1 : gset hex_id)
  = ⋃ ((λ t : table, list_to_set t.*1) <$> batches).
Proof.
  induction batches as [|t batches IH]; simpl; [done|].
  by rewrite fmap_app, list_to_set_app_L, IH.
Qed.

Lemma merge_batches_same_rows (batches1 batches2 : list table) :
  concat batches1 ≡ₚ concat batches2 →
  (batches1 = [] ↔ batches2 = []) →
  hex_result <$> merge_batches batches1 = hex_result <$> merge_batches batches2.
Proof.
  intros Hp [Hnil1 Hnil2].
  destruct batches1 as [|t1 bs1], batches2 as [|t2 bs2].
  - done.
  - by specialize (Hnil1 eq_refl).
  - by specialize (Hnil2 eq_refl).
  - rewrite !merge_batches_Ok by done. simpl. f_equal. by apply hex_result_perm.
Qed.

End Merger.

Section AnyAggregate.

Context {V : Type} (agg : list V → V).

Implicit Types (rows : list (hex_id * V)) (h : hex_id).

Lemma group_of_with_perm h rows1 rows2 :
  rows1 ≡ₚ rows2 → group_of_with h rows1 ≡ₚ group_of_with h rows2.
Proof. intros Hp. unfold group_of_with. by rewrite Hp. Qed.

Lemma group_by_with_keys rows : (group_by_with agg rows).*1 = remove_dups (rows.*1).
Proof.
  unfold group_by_with. induction (remove_dups rows.*1) as [|k ks IH]; simpl; [done|].
  by f_equal.
Qed.

Lemma elem_of_group_by_with h v rows :
  (h, v) ∈ group_by_with agg rows ↔ h ∈ rows.*1 ∧ v = agg (group_of_with h rows).
Proof.
  unfold group_by_with. rewrite list_elem_of_fmap. split.
  - intros (k & Heq & Hk). simplify_eq. split; [|done]. by apply elem_of_remove_dups.
  - intros [Hk ->]. exists h. split; [done|]. by apply elem_of_remove_dups.
Qed.

Lemma lookup_group_by_with rows h :
  (list_to_map (group_by_with agg rows) : gmap hex_id V) !! h
  = if decide (h ∈ rows.*1) then Some (agg (group_of_with h rows)) else None.
Proof.
  destruct (decide _) as [Hin|Hnin].
  - apply elem_of_list_to_map; [rewrite group_by_with_keys; apply NoDup_remove_dups|].
    by apply elem_of_group_by_with.
  - apply not_elem_of_list_to_map. by rewrite group_by_with_keys, elem_of_remove_dups.
Qed.

End AnyAggregate.

(** The merger of the pipeline is the general one at the exact mean. *)
Lemma merge_batches_with_AVG (batches : list table) :
  merge_batches_with AVG batches = merge_batches batches.
Proof. by destruct batches. Qed.



(** C5.  The merged table has each hex id once, and its hex ids are the
    union of the hex ids of the input tables. *)
Theorem merge_batches_hex_id_conservation (batches : list table) :
  batches ≠ [] →
  ∃ merged : table,
    merge_batches batches = Ok merged ∧
    NoDup merged.*1 ∧
    (list_to_set merged.*1 : gset hex_id)
    = ⋃ ((λ t : table, list_to_set t.*1) <$> batches).
Proof.
  intros Hne. exists (group_by_avg (concat batches)).
  split; [by apply merge_batches_Ok|].
  split; [apply group_by_avg_NoDup|].
  rewrite <- concat_keys_union, group_by_avg_keys.
  apply set_eq. intros h. by rewrite !elem_of_list_to_set, elem_of_remove_dups.
Qed.

Lemma merge_batches_hex_id_conservation_witness :
  let batches : list table := [[(7%N, Z2f 100); (8%N, Z2f 5)]; [(7%N, Z2f 200)]] in
  batches ≠ [] ∧
  ∃ merged : table,
    merge_batches batches = Ok merged ∧
    NoDup merged.*1 ∧
    (list_to_set merged.*1 : gset hex_id)
    = ⋃ ((λ t : table, list_to_set t.*1) <$> batches).
Proof.
  intros batches.
  assert (Hne : batches ≠ []) by done.
  split; [exact Hne|]. exact (merge_batches_hex_id_conservation batches Hne).
Defined.

(** C9 (amended).  What the merge keeps when the same rows arrive in another
    order or another batching (two lists of tables whose concatenations are
    permutations of each other, both lists empty or neither), for every
    aggregate in the place of [AVG]: both merges fail or both return; the
    results have the same hex ids, each once; each hex id gets the aggregate
    of its metric values in the order the rows arrive in, the same values in
    both runs; and the two mappings are equal whenever the aggregate does
    not depend on the order of its values, as the exact mean does not. *)
Theorem merge_batches_order_and_batching {V : Type} (agg : list V → V)
    (batches1 batches2 : list (list (hex_id * V))) :
  concat batches1 ≡ₚ concat batches2 →
  (batches1 = [] ↔ batches2 = []) →
  (merge_batches_with agg batches1 = Raise (RuntimeError "No tiles produced data") ∧
   merge_batches_with agg batches2 = Raise (RuntimeError "No tiles produced data")) ∨
  ∃ merged1 merged2 : list (hex_id * V),
    merge_batches_with agg batches1 = Ok merged1 ∧
    merge_batches_with agg batches2 = Ok merged2 ∧
    NoDup merged1.*1 ∧ NoDup merged2.*1 ∧ merged1.*1 ≡ₚ merged2.*1 ∧
    (∀ h, h ∈ merged1.*1 →
       group_of_with h (concat batches1) ≡ₚ group_of_with h (concat batches2) ∧
       (list_to_map merged1 : gmap hex_id V) !! h
       = Some (agg (group_of_with h (concat batches1))) ∧
       (list_to_map merged2 : gmap hex_id V) !! h
       = Some (agg (group_of_with h (concat batches2)))) ∧
    ((∀ l1 l2, l1 ≡ₚ l2 → agg l1 = agg l2) →
     (list_to_map merged1 : gmap hex_id V) = list_to_map merged2).
Proof.
  intros Hp [Hnil1 Hnil2].
  destruct batches1 as [|t1 bs1], batches2 as [|t2 bs2].
  - by left.
  - by specialize (Hnil1 eq_refl).
  - by specialize (Hnil2 eq_refl).
  - right. set (rows1 := concat (t1 :: bs1)) in *. set (rows2 := concat (t2 :: bs2)) in *.
    exists (group_by_with agg rows1), (group_by_with agg rows2).
    assert (Hk : ∀ h, h ∈ rows1.*1 ↔ h ∈ rows2.*1) by (intros h; by rewrite Hp).
    split; [done|]. split; [done|]. rewrite !group_by_with_keys.
    split; [apply NoDup_remove_dups|]. split; [apply NoDup_remove_dups|].
    split; [|split].
    + apply NoDup_Permutation; [apply NoDup_remove_dups..|].
      intros h. by rewrite !elem_of_remove_dups.
    + intros h Hh. apply (proj1 (elem_of_remove_dups _ _)) in Hh.
      split; [by apply group_of_with_perm|].
      rewrite !lookup_group_by_with.
      rewrite (decide_True _ _ Hh), (decide_True _ _ (proj1 (Hk h) Hh)). done.
    + intros Hagg. apply map_eq. intros h. rewrite !lookup_group_by_with.
      destruct (decide (h ∈ rows1.*1)) as [H1|H1], (decide (h ∈ rows2.*1)) as [H2|H2];
        [|by apply Hk in H1|by apply Hk in H2|done].
      f_equal. by apply Hagg, group_of_with_perm.
Qed.

(** The input that refutes C9 as stated: three tables with one row each for
    hex id 7, with the metric values 0.1, 0.2 and 0.3, merged in this order
    and in the reverse order.  The binary64 mean of the first run is
    0.20000000000000004 (7205759403792795 / 2^55), of the second
    0.19999999999999998 (7205759403792793 / 2^55). *)
Lemma merge_order_shows_in_binary64 :
  let batches1 := [one_row 1; one_row 2; one_row 3] in
  let batches2 := [one_row 3; one_row 2; one_row 1] in
  batches1 ≡ₚ batches2 ∧
  ∃ x y : PrimFloat.float,
    merge_batches_with AVG_double batches1 = Ok [(7%N, x)] ∧
    merge_batches_with AVG_double batches2 = Ok [(7%N, y)] ∧
    FloatOps.Prim2SF x = SpecFloat.S754_finite false 7205759403792795 (-55) ∧
    FloatOps.Prim2SF y = SpecFloat.S754_finite false 7205759403792793 (-55) ∧
    x ≠ y.
Proof.
  intros batches1 batches2. split.
  - unfold batches1, batches2. etrans; [apply Permutation_swap|].
    etrans; [apply Permutation_skip, Permutation_swap|]. apply Permutation_swap.
  - eexists _, _. split; [vm_compute; reflexivity|]. split; [vm_compute; reflexivity|].
    split; [vm_compute; reflexivity|]. split; [vm_compute; reflexivity|].
    intros E. apply (f_equal FloatOps.Prim2SF) in E. vm_compute in E. discriminate.
Qed.

Lemma merge_batches_order_and_batching_witness :
  let batches1 := [one_row 1; one_row 2; one_row 3] in
  let batches2 := [[(7%N, tenths 3); (7%N, tenths 2)]; one_row 1] in
  concat batches1 ≡ₚ concat batches2 ∧
  (batches1 = [] ↔ batches2 = []) ∧
  ((merge_batches_with AVG_double batches1 = Raise (RuntimeError "No tiles produced data") ∧
    merge_batches_with AVG_double batches2 = Raise (RuntimeError "No tiles produced data")) ∨
   ∃ merged1 merged2 : list (hex_id * PrimFloat.float),
     merge_batches_with AVG_double batches1 = Ok merged1 ∧
     merge_batches_with AVG_double batches2 = Ok merged2 ∧
     NoDup merged1.*1 ∧ NoDup merged2.*1 ∧ merged1.*1 ≡ₚ merged2.*1 ∧
     (∀ h, h ∈ merged1.*1 →
        group_of_with h (concat batches1) ≡ₚ group_of_with h (concat batches2) ∧
        (list_to_map merged1 : gmap hex_id PrimFloat.float) !! h
        = Some (AVG_double (group_of_with h (concat batches1))) ∧
        (list_to_map merged2 : gmap hex_id PrimFloat.float) !! h
        = Some (AVG_double (group_of_with h (concat batches2)))) ∧
     ((∀ l1 l2, l1 ≡ₚ l2 → AVG_double l1 = AVG_double l2) →
      (list_to_map merged1 : gmap hex_id PrimFloat.float) = list_to_map merged2)).
Proof.
  intros batches1 batches2.
  assert (Hp : concat batches1 ≡ₚ concat batches2).
  { unfold batches1, batches2, one_row. simpl. etrans; [apply Permutation_swap|].
    etrans; [apply Permutation_skip, Permutation_swap|]. apply Permutation_swap. }
  assert (Hnil : batches1 = [] ↔ batches2 = []) by done.
  split; [exact Hp|]. split; [exact Hnil|].
  exact (merge_batches_order_and_batching AVG_double batches1 batches2 Hp Hnil).
Defined.

(** With the exact mean the order and the batching do not show; reordering
    the list of tables is one case. *)
Corollary merge_batches_permutation (batches1 batches2 : list table) :
  batches1 ≡ₚ batches2 →
  hex_result <$> merge_batches batches1 = hex_result <$> merge_batches batches2.
Proof.
  intros Hp. apply merge_batches_same_rows; [by rewrite Hp|].
  split; intros ->; [|symmetry in Hp]; by apply Permutation_nil in Hp.
Qed.

Section Pool.

Context (C : Collaborators) (items : Items C) (band : string) (h3_res resolution : Z).

Abbreviation worker := (task C items band h3_res resolution).

Lemma collect_results_returns (futures : list (result (option table))) (batches : list table) :
  (∀ f, f ∈ futures → ∃ r, f = Ok r) →
  collect_results futures batches = Ok (batches ++ (futures ≫= kept)).
Proof.
  revert batches. induction futures as [|f futures IH]; intros batches Hok.
  - simpl. by rewrite app_nil_r.
  - destruct (Hok f) as [r ->]; [by left|]. rewrite bind_cons.
    change (collect_results (Ok r :: futures) batches)
      with (collect_results futures
              (match r with
               | Some t => if decide (0 < length t)%nat then batches ++ [t] else batches
               | None => batches
               end)).
    rewrite IH by (intros; apply Hok; by right).
    f_equal. destruct r as [t|]; simpl; [|done].
    destruct (decide _); simpl; [|done]. by rewrite <- app_assoc.
Qed.

(** The first task, in completion order, whose worker raised decides. *)
Lemma collect_results_raises (done_ok : list (option table)) (e : exn)
    (rest : list (result (option table))) (batches : list table) :
  collect_results ((Ok <$> done_ok) ++ Raise e :: rest) batches = Raise e.
Proof.
  revert batches. induction done_ok as [|r done_ok IH]; intros batches; simpl; [done|].
  apply IH.
Qed.

Lemma kept_perm (tiles1 tiles2 : list Tile) :
  tiles1 ≡ₚ tiles2 → concat ((tiles1 ≫= kept ∘ worker)) ≡ₚ concat ((tiles2 ≫= kept ∘ worker)).
Proof. intros Hp. by rewrite Hp. Qed.

Lemma bind_kept_fmap (tiles : list Tile) :
  (worker <$> tiles) ≫= kept = tiles ≫= kept ∘ worker.
Proof. apply list_fmap_bind. Qed.

Lemma kept_nil_perm (tiles1 tiles2 : list Tile) :
  tiles1 ≡ₚ tiles2 → (tiles1 ≫= kept ∘ worker) = [] ↔ (tiles2 ≫= kept ∘ worker) = [].
Proof.
  intros Hp. assert (Hpk : (tiles1 ≫= kept ∘ worker) ≡ₚ (tiles2 ≫= kept ∘ worker)) by (by rewrite Hp).
  split; intros E; rewrite E in Hpk; [|symmetry in Hpk]; by apply Permutation_nil in Hpk.
Qed.

(** When no worker raises, the pool merges the kept tables; the completion
    order does not show in the mapping. *)
Lemma process_all_tiles_merges (tiles : list Tile) :
  (∀ tile, tile ∈ tiles → ∃ r, worker tile = Ok r) →
  hex_result <$> process_all_tiles C items tiles band h3_res resolution
  = hex_result <$> merge_batches (tiles ≫= kept ∘ worker).
Proof.
  intros Hok. unfold process_all_tiles.
  pose proof (as_completed_perm C tiles) as Hperm.
  rewrite collect_results_returns.
  2:{ intros f (tile & -> & Hin)%list_elem_of_fmap. apply Hok. by rewrite <- Hperm. }
  rewrite bind_kept_fmap, app_nil_l.
  change (hex_result <$> merge_batches (as_completed C tiles ≫= kept ∘ worker)
          = hex_result <$> merge_batches (tiles ≫= kept ∘ worker)).
  apply merge_batches_same_rows; [by apply kept_perm | by apply kept_nil_perm].
Qed.

(** A worker that raises makes the pool raise: nothing after the load is
    caught, in the worker or in the pool. *)
Lemma collect_results_propagates (futures : list (result (option table)))
    (batches : list table) (e : exn) :
  Raise e ∈ futures → ∃ e', collect_results futures batches = Raise e'.
Proof.
  revert batches. induction futures as [|f futures IH]; intros batches Hin.
  - by apply elem_of_nil in Hin.
  - destruct f as [r|e0]; [|by exists e0].
    apply elem_of_cons in Hin as [?|Hin]; [done|]. by apply IH.
Qed.

Lemma raising_worker_fails_the_pool (tiles : list Tile) (tile : Tile) (e : exn) :
  tile ∈ tiles → worker tile = Raise e →
  ∃ e', process_all_tiles C items tiles band h3_res resolution = Raise e'.
Proof.
  intros Hin He. unfold process_all_tiles.
  destruct (collect_results_propagates (worker <$> as_completed C tiles) [] e) as [e' ->].
  - apply list_elem_of_fmap. exists tile. split; [done|]. by rewrite as_completed_perm.
  - by exists e'.
Qed.

(** A failed load is the worker's [None]. *)
Lemma load_failure_gives_None (tile : Tile) (e : exn) :
  odc_stac_load C items resolution band (tms_bounds C tile) = Raise e →
  worker tile = Ok None.
Proof.
  intros Hload. unfold task, process_tile_to_h3, load_tile_pixels. by rewrite Hload.
Qed.

End Pool.

(** C3.  The worker's docstring promises a table or [None] on failure, but
    only the raster load is inside its [try], and the pool has no handler
    around [future.result()]: here the raster of tile 0 loads, the per-tile
    session refuses the query, and the exception leaves [process_tile_to_h3]
    and then [process_all_tiles], which raises it instead of merging the
    other tiles. *)
Lemma query_failure_escapes :
  let C := stub two_pixel_grid unit_cell split_three reject_all in
  (∃ ds, odc_stac_load C () 30 "data" (tms_bounds C tile0) = Ok ds) ∧
  process_tile_to_h3 C tile0 () "data" 9 30
  = Raise (LibraryError "duckdb.OutOfMemoryException") ∧
  process_all_tiles C () [tile0; tile1; tile2] "data" 9 30
  = Raise (LibraryError "duckdb.OutOfMemoryException").
Proof. intros C. split; [by eexists|]. split; reflexivity. Qed.




(** C10.  A result that is not [None] but has no rows is not added to the
    batches; when every tile returns [None] or a table without rows, nothing
    is collected and [process_all_tiles] raises the error for no data. *)
Theorem empty_tables_count_as_failures (C : Collaborators) (items : Items C)
    (tiles : list Tile) (band : string) (h3_res resolution : Z) :
  (∀ tile, tile ∈ tiles →
     process_tile_to_h3 C tile items band h3_res resolution = Ok None ∨
     process_tile_to_h3 C tile items band h3_res resolution = Ok (Some [])) →
  (∀ futures batches,
     collect_results (Ok (Some []) :: futures) batches = collect_results futures batches) ∧
  collect_results (task C items band h3_res resolution <$> as_completed C tiles) [] = Ok [] ∧
  process_all_tiles C items tiles band h3_res resolution
  = Raise (RuntimeError "No tiles produced data").
Proof.
  intros Hall. split; [done|].
  assert (Hc : collect_results (task C items band h3_res resolution <$> as_completed C tiles) []
               = Ok []).
  { rewrite collect_results_returns.
    - rewrite list_fmap_bind, app_nil_l. f_equal.
      assert (Hin : ∀ tile, tile ∈ as_completed C tiles → tile ∈ tiles)
        by (intros tile; by rewrite as_completed_perm).
      induction (as_completed C tiles) as [|tile l IH]; [done|].
      rewrite bind_cons, IH by (intros; apply Hin; by right).
      unfold compose, task. by destruct (Hall tile (Hin tile ltac:(left))) as [-> | ->].
    - intros f (tile & -> & Hin)%list_elem_of_fmap. rewrite as_completed_perm in Hin.
      unfold task. destruct (Hall tile Hin) as [-> | ->]; by eexists. }
  split; [done|]. unfold process_all_tiles. by rewrite Hc.
Qed.

Lemma empty_tables_count_as_failures_witness :
  let C := stub empty_grid unit_cell split_three accept_all in
  let tiles := [tile0; tile1] in
  (∀ tile, tile ∈ tiles →
     process_tile_to_h3 C tile () "data" 9 30 = Ok None ∨
     process_tile_to_h3 C tile () "data" 9 30 = Ok (Some [])) ∧
  (∀ futures batches,
     collect_results (Ok (Some []) :: futures) batches = collect_results futures batches) ∧
  collect_results (task C () "data" 9 30 <$> as_completed C tiles) [] = Ok [] ∧
  process_all_tiles C () tiles "data" 9 30 = Raise (RuntimeError "No tiles produced data").
Proof.
  intros C tiles.
  assert (Hall : ∀ tile, tile ∈ tiles →
     process_tile_to_h3 C tile () "data" 9 30 = Ok None ∨
     process_tile_to_h3 C tile () "data" 9 30 = Ok (Some [])).
  { intros tile Hin. unfold tiles in Hin.
    apply elem_of_cons in Hin as [->|Hin]; [right; reflexivity|].
    apply list_elem_of_singleton in Hin as ->. left; reflexivity. }
  split; [exact Hall|].
  exact (empty_tables_count_as_failures C () tiles "data" 9 30 Hall).
Defined.


(** ** Configuration *)

Section Configuration.

Context (C : Collaborators).

Lemma calculate_resolution_for_h3_zero_native (h3_res p : Z) (e : float) :
  average_hexagon_edge_length C h3_res = Ok e → p ≠ 0 → Z.abs p < float_limit →
  calculate_resolution_for_h3 C h3_res 0 p = Raise ZeroDivisionError.
Proof.
  intros He Hp Hl. unfold calculate_resolution_for_h3. rewrite He.
  change (Ok e ≫= ?k) with (k e). cbv beta.
  rewrite py_div_Ok by done. reflexivity.
Qed.

Lemma calculate_resolution_for_h3_overflow_native (h3_res n p : Z) (e : float) :
  average_hexagon_edge_length C h3_res = Ok e → p ≠ 0 → Z.abs p < float_limit →
  float_limit ≤ Z.abs n →
  calculate_resolution_for_h3 C h3_res n p = Raise OverflowError.
Proof.
  intros He Hp Hl Hn. unfold calculate_resolution_for_h3. rewrite He.
  change (Ok e ≫= ?k) with (k e). cbv beta.
  rewrite py_div_Ok by done.
  change (Ok ?x ≫= ?k) with (k x). cbv beta.
  by rewrite py_div_overflow.
Qed.

(** With the edge length known, the planner returns or raises one of the
    two errors of its divisions. *)
Lemma calculate_resolution_for_h3_outcome (h3_res n p : Z) (e : float) :
  average_hexagon_edge_length C h3_res = Ok e →
  calculate_resolution_for_h3 C h3_res n p = Raise ZeroDivisionError ∨
  calculate_resolution_for_h3 C h3_res n p = Raise OverflowError ∨
  ∃ r, calculate_resolution_for_h3 C h3_res n p = Ok r.
Proof.
  intros He. unfold calculate_resolution_for_h3. rewrite He.
  change (Ok e ≫= ?k) with (k e). cbv beta.
  destruct (py_div_outcome e p) as [[_ ->]|[[_ ->]|(_ & _ & ->)]]; [by left|by right; left|].
  change (Ok ?x ≫= ?k) with (k x). cbv beta.
  destruct (py_div_outcome (e / Z2f p)%Qc n) as [[_ ->]|[[_ ->]|(_ & _ & ->)]];
    [by left|by right; left|].
  change (Ok ?x ≫= ?k) with (k x). cbv beta zeta.
  destruct (py_div_outcome e (Z.max (py_round (e / Z2f p / Z2f n)%Qc * n) n))
    as [[_ ->]|[[_ ->]|(_ & _ & ->)]]; [by left|by right; left|].
  right; right. by eexists.
Qed.

Lemma pixels_default_in_range : 6 ≠ 0 ∧ Z.abs 6 < float_limit.
Proof. split; [done|reflexivity]. Qed.

End Configuration.

(** C6 (amended).  The pipeline does not validate its configuration: the
    bounding box is never inspected, and the resolution parameters meet
    only the arithmetic of the planner.  For every configuration, whatever
    its bounding box, when the h3 extension installs, h3 knows the hex
    resolution and the catalog query and the tile splitter return: the
    pipeline stops before anything is submitted with the planner's
    [ZeroDivisionError] or [OverflowError], or it submits every tile the
    splitter returned and its outcome is that of [process_all_tiles].  It
    stops with [ZeroDivisionError] when [NATIVE_RESOLUTION] is zero and with
    [OverflowError] when it does not convert to float; when it is positive
    and converts, and the edge length leaves edge + native in the float
    range, every tile is submitted, at a resolution not below it. *)
Theorem configuration_is_not_validated (C : Collaborators) (cfg : Config)
    (hex_edge_m : float) (items : Items C) (tiles : list Tile) :
  install_h3 C = Ok () →
  average_hexagon_edge_length C (H3_RES cfg) = Ok hex_edge_m →
  query_stac C (bbox cfg) (COLLECTION cfg) = Ok items →
  get_tiles C (bbox cfg) (TILE_ZOOM cfg) = Ok tiles →
  (run_pipeline C cfg = ([], Raise ZeroDivisionError) ∨
   run_pipeline C cfg = ([], Raise OverflowError) ∨
   ∃ r, calculate_resolution_for_h3 C (H3_RES cfg) (NATIVE_RESOLUTION cfg) 6 = Ok r ∧
        run_pipeline C cfg
        = (tiles, process_all_tiles C items tiles (BAND cfg) (H3_RES cfg) r)) ∧
  (NATIVE_RESOLUTION cfg = 0 → run_pipeline C cfg = ([], Raise ZeroDivisionError)) ∧
  (float_limit ≤ Z.abs (NATIVE_RESOLUTION cfg) →
   run_pipeline C cfg = ([], Raise OverflowError)) ∧
  (0 < NATIVE_RESOLUTION cfg < float_limit →
   (hex_edge_m + Z2f (NATIVE_RESOLUTION cfg) ≤ Z2f float_limit)%Qc →
   ∃ r, NATIVE_RESOLUTION cfg ≤ r ∧
        run_pipeline C cfg
        = (tiles, process_all_tiles C items tiles (BAND cfg) (H3_RES cfg) r)).
Proof.
  intros Hinst He Hi Ht.
  destruct pixels_default_in_range as [H6 H6'].
  assert (Hrun : ∀ r, calculate_resolution_for_h3 C (H3_RES cfg) (NATIVE_RESOLUTION cfg) 6
                      = Ok r →
                 run_pipeline C cfg
                 = (tiles, process_all_tiles C items tiles (BAND cfg) (H3_RES cfg) r)).
  { intros r Hr. unfold run_pipeline. by rewrite Hinst, Hr, Hi, Ht. }
  assert (Hstop : ∀ e, calculate_resolution_for_h3 C (H3_RES cfg) (NATIVE_RESOLUTION cfg) 6
                       = Raise e →
                  run_pipeline C cfg = ([], Raise e)).
  { intros e Hr. unfold run_pipeline. by rewrite Hinst, Hr. }
  split; [|split; [|split]].
  - destruct (calculate_resolution_for_h3_outcome C _ (NATIVE_RESOLUTION cfg) 6 _ He)
      as [Hz|[Ho|[r Hr]]].
    + left. by apply Hstop.
    + right; left. by apply Hstop.
    + right; right. exists r. split; [done|]. by apply Hrun.
  - intros Hn. apply Hstop. rewrite Hn.
    by apply (calculate_resolution_for_h3_zero_native C _ 6 _ He).
  - intros Hn. apply Hstop.
    by apply (calculate_resolution_for_h3_overflow_native C _ _ 6 _ He).
  - intros Hn Hroom. eexists. split; [|by apply Hrun, calculate_resolution_for_h3_eq].
    lia.
Qed.

(** The inputs that refute C6 as stated: a bounding box with west > east and
    south > north is processed to a result, with all tiles submitted; a
    negative native resolution is accepted by the planner. *)
Lemma invalid_configuration_is_processed :
  let C := stub two_pixel_grid unit_cell split_three accept_all in
  (east (bbox inverted_config) < west (bbox inverted_config))%Qc ∧
  (north (bbox inverted_config) < south (bbox inverted_config))%Qc ∧
  (run_pipeline C inverted_config).1 = [tile0; tile1; tile2] ∧
  (∃ merged, (run_pipeline C inverted_config).2 = Ok merged) ∧
  calculate_resolution_for_h3 C 11 (-1) 6 = Ok 5.
Proof.
  intros C. split; [done|]. split; [done|]. split; [vm_compute; reflexivity|].
  split; [eexists; vm_compute; reflexivity | vm_compute; reflexivity].
Qed.

Lemma configuration_is_not_validated_witness :
  let C := stub two_pixel_grid unit_cell split_three accept_all in
  let cfg := inverted_config in
  let tiles := [tile0; tile1; tile2] in
  let hex_edge_m := Q2Qc (28663897 # 1000000) in
  install_h3 C = Ok () ∧
  average_hexagon_edge_length C (H3_RES cfg) = Ok hex_edge_m ∧
  query_stac C (bbox cfg) (COLLECTION cfg) = Ok () ∧
  get_tiles C (bbox cfg) (TILE_ZOOM cfg) = Ok tiles ∧
  (run_pipeline C cfg = ([], Raise ZeroDivisionError) ∨
   run_pipeline C cfg = ([], Raise OverflowError) ∨
   ∃ r, calculate_resolution_for_h3 C (H3_RES cfg) (NATIVE_RESOLUTION cfg) 6 = Ok r ∧
        run_pipeline C cfg
        = (tiles, process_all_tiles C () tiles (BAND cfg) (H3_RES cfg) r)) ∧
  (NATIVE_RESOLUTION cfg = 0 → run_pipeline C cfg = ([], Raise ZeroDivisionError)) ∧
  (float_limit ≤ Z.abs (NATIVE_RESOLUTION cfg) →
   run_pipeline C cfg = ([], Raise OverflowError)) ∧
  (0 < NATIVE_RESOLUTION cfg < float_limit →
   (hex_edge_m + Z2f (NATIVE_RESOLUTION cfg) ≤ Z2f float_limit)%Qc →
   ∃ r, NATIVE_RESOLUTION cfg ≤ r ∧
        run_pipeline C cfg
        = (tiles, process_all_tiles C () tiles (BAND cfg) (H3_RES cfg) r)).
Proof.
  intros C cfg tiles hex_edge_m.
  assert (Hinst : install_h3 C = Ok ()) by reflexivity.
  assert (He : average_hexagon_edge_length C (H3_RES cfg) = Ok hex_edge_m) by reflexivity.
  assert (Hi : query_stac C (bbox cfg) (COLLECTION cfg) = Ok ()) by reflexivity.
  assert (Ht : get_tiles C (bbox cfg) (TILE_ZOOM cfg) = Ok tiles) by reflexivity.
  split; [exact Hinst|]. split; [exact He|]. split; [exact Hi|]. split; [exact Ht|].
  exact (configuration_is_not_validated C cfg hex_edge_m () tiles Hinst He Hi Ht).
Defined.

(** ** Two phases against one pass *)

Section TwoPhase.

Implicit Types (groups : list table) (h : hex_id).

Lemma concat_filter_nonempty {A} (l : list (list A)) :
  concat (filter (λ t, (0 < length t)%nat) l) = concat l.
Proof.
  induction l as [|t l IH]; [done|].
  rewrite filter_cons. destruct (decide _) as [|Hz]; simpl; [by rewrite IH|].
  rewrite IH. destruct t; [done|]. simpl in Hz. lia.
Qed.

Lemma group_of_length_pos h (rows : table) : h ∈ rows.*1 → (0 < length (group_of h rows))%nat.
Proof.
  intros Hin. destruct (group_of h rows) eqn:E; simpl; [|lia].
  by apply group_of_nil_iff in E.
Qed.

Lemma elem_of_concat_group_by_avg_keys h groups :
  h ∈ (concat (group_by_avg <$> groups)).*1 ↔ h ∈ (concat groups).*1.
Proof.
  rewrite !elem_of_concat_keys. split.
  - intros (t & (g & -> & Hg)%list_elem_of_fmap & Hh).
    exists g. split; [done|]. by rewrite group_by_avg_keys, elem_of_remove_dups in Hh.
  - intros (g & Hg & Hh). exists (group_by_avg g). split.
    + apply list_elem_of_fmap. by exists g.
    + by rewrite group_by_avg_keys, elem_of_remove_dups.
Qed.

(** The value of a hex id in a grouped table, by its group. *)
Lemma hex_result_group_by_avg_group h (rows : table) :
  hex_result (group_by_avg rows) !! h
  = match group_of h rows with [] => None | l => Some (AVG l) end.
Proof.
  rewrite hex_result_group_by_avg. destruct (decide _) as [Hin|Hnin].
  - apply group_of_length_pos in Hin.
    destruct (group_of h rows); [simpl in Hin; lia|done].
  - apply group_of_nil_iff in Hnin. by rewrite Hnin.
Qed.

(** The group of [h] in concatenated tables, table by table. *)
Lemma group_of_concat h groups :
  group_of h (concat groups)
  = concat (filter (λ g, (0 < length g)%nat) (group_of h <$> groups)).
Proof.
  rewrite concat_filter_nonempty. induction groups as [|g groups IH]; [done|].
  rewrite fmap_cons. cbn [concat]. by rewrite group_of_app, IH.
Qed.

(** The group of [h] in the concatenated local tables: one local mean for
    each table that has rows for [h]. *)
Lemma group_of_local_means h groups :
  group_of h (concat (group_by_avg <$> groups))
  = AVG <$> filter (λ g, (0 < length g)%nat) (group_of h <$> groups).
Proof.
  induction groups as [|g groups IH]; [done|].
  rewrite !fmap_cons. cbn [concat]. rewrite group_of_app, IH, group_of_group_by_avg, filter_cons.
  destruct (decide (h ∈ g.*1)) as [Hin|Hnin].
  - by rewrite decide_True by (by apply group_of_length_pos).
  - apply group_of_nil_iff in Hnin. rewrite Hnin.
    by rewrite decide_False by (simpl; lia).
Qed.

End TwoPhase.

Section Pipelines.

Context (C : Collaborators) (items : Items C) (band : string) (h3_res : Z).

Abbreviation loaded_of := (loaded C items band).

Lemma result_bind_Ok {A B} (m : result A) (f : A → result B) (b : B) :
  m ≫= f = Ok b → ∃ a, m = Ok a ∧ f a = Ok b.
Proof. destruct m as [a|]; [by exists a|done]. Qed.

Lemma pa_table_inv (lats lons elevs : list float) (tile_pa : list GeoSample) :
  pa_table lats lons elevs = Ok tile_pa →
  length lats = length lons ∧ length lons = length elevs ∧
  tile_pa = rows_of_columns lats lons elevs.
Proof.
  unfold pa_table. destruct (decide _) as [[H1 H2]|]; [|done].
  intros [= <-]. done.
Qed.

Lemma rows_of_columns_app (a1 b1 c1 a2 b2 c2 : list float) :
  length a1 = length b1 → length b1 = length c1 →
  rows_of_columns (a1 ++ a2) (b1 ++ b2) (c1 ++ c2)
  = rows_of_columns a1 b1 c1 ++ rows_of_columns a2 b2 c2.
Proof.
  intros Hab Hbc. unfold rows_of_columns.
  rewrite zip_with_app by done.
  rewrite zip_with_app; [done|]. rewrite length_zip_with. lia.
Qed.

(** What a returning task keeps, in terms of the tile's sample table. *)
Lemma kept_task (resolution : Z) (tile : Tile) (r : option table) :
  task C items band h3_res resolution tile = Ok r →
  kept (Ok r)
  = filter (λ t, (0 < length t)%nat)
      (tile_query C h3_res <$> tile_samples C items band resolution tile).
Proof.
  unfold task, process_tile_to_h3, tile_samples.
  destruct (load_tile_pixels C items band resolution tile) as [[[[lats lons] elevs]|]|e];
    simpl; [|by intros [= <-]|done].
  destruct (pa_table lats lons elevs) as [tile_pa|]; simpl; [|done].
  destruct (get_con C) as [con|]; simpl; [|done].
  destruct (sql_runs C con tile_pa); simpl; [|done].
  intros [= <-]. simpl. rewrite filter_cons, filter_nil. by destruct (decide _).
Qed.

Lemma kept_tasks (resolution : Z) (tiles : list Tile) :
  (∀ tile, tile ∈ tiles → ∃ r, task C items band h3_res resolution tile = Ok r) →
  tiles ≫= kept ∘ task C items band h3_res resolution
  = filter (λ t, (0 < length t)%nat)
      (tile_query C h3_res <$> (tiles ≫= tile_samples C items band resolution)).
Proof.
  induction tiles as [|tile tiles IH]; intros Hok; [done|].
  rewrite !bind_cons, fmap_app, filter_app, <- IH by (intros; apply Hok; by right).
  f_equal. destruct (Hok tile) as [r Hr]; [by left|].
  unfold compose. rewrite Hr. by apply kept_task.
Qed.

Lemma collect_results_Ok_inv (futures : list (result (option table))) (batches out : list table) :
  collect_results futures batches = Ok out → ∀ f, f ∈ futures → ∃ r, f = Ok r.
Proof.
  revert batches. induction futures as [|f futures IH]; intros batches Hc g Hg.
  - by apply elem_of_nil in Hg.
  - destruct f as [r|e]; [|done]. apply elem_of_cons in Hg as [->|Hg]; [by exists r|].
    by eapply IH.
Qed.

Lemma process_all_tiles_Ok_inv (resolution : Z) (tiles : list Tile) (merged : table) :
  process_all_tiles C items tiles band h3_res resolution = Ok merged →
  ∀ tile, tile ∈ tiles → ∃ r, task C items band h3_res resolution tile = Ok r.
Proof.
  unfold process_all_tiles. intros Hp tile Hin.
  destruct (collect_results _ _) as [batches|] eqn:Hc; [|done].
  apply (collect_results_Ok_inv _ _ _ Hc).
  apply list_elem_of_fmap. exists tile. split; [done|]. by rewrite as_completed_perm.
Qed.

Lemma load_pixels_loop_inv (tiles : list Tile)
    (acc loaded : list (list float * list float * list float)) :
  load_pixels_loop C items band tiles acc = Ok loaded →
  loaded = acc ++ (tiles ≫= loaded_of).
Proof.
  revert acc. induction tiles as [|tile tiles IH]; intros acc; simpl.
  - intros [= <-]. by rewrite app_nil_r.
  - unfold loaded_of at 1.
    destruct (load_tile_pixels C items band 30 tile) as [[p|]|]; simpl; [| |done].
    + intros ->%IH. by rewrite <- app_assoc.
    + by intros ->%IH.
Qed.

Lemma np_concatenate_inv (arrays : list (list float)) (a : list float) :
  np_concatenate arrays = Ok a → a = concat arrays.
Proof. destruct arrays; [done|]. by intros [= <-]. Qed.

(** The table of the concatenated arrays is the concatenation of the tiles'
    tables, when each tile's columns agree in length. *)
Lemma rows_of_concatenated_columns (tiles : list Tile) :
  (∀ tile, tile ∈ tiles → ∃ r, task C items band h3_res 30 tile = Ok r) →
  let loaded := tiles ≫= loaded_of in
  rows_of_columns (concat ((λ p, p.1.1) <$> loaded)) (concat ((λ p, p.1.2) <$> loaded))
    (concat ((λ p, p.2) <$> loaded))
  = concat (tiles ≫= tile_samples C items band 30).
Proof.
  simpl. induction tiles as [|tile tiles IH]; intros Hok; [done|].
  rewrite !bind_cons, !fmap_app, !concat_app.
  destruct (Hok tile) as [r Hr]; [by left|].
  specialize (IH ltac:(intros; apply Hok; by right)).
  unfold task, process_tile_to_h3 in Hr.
  change (loaded C items band tile) with
    (match load_tile_pixels C items band 30 tile with
     | Ok (Some p) => [p]
     | _ => []
     end).
  change (tile_samples C items band 30 tile) with
    (match load_tile_pixels C items band 30 tile with
     | Ok (Some (lats, lons, elevs)) =>
         match pa_table lats lons elevs with
         | Ok tile_pa => [tile_pa]
         | Raise _ => []
         end
     | _ => []
     end).
  destruct (load_tile_pixels C items band 30 tile) as [[[[lats lons] elevs]|]|e];
    simpl in Hr |- *; [|exact IH|done].
  destruct (pa_table lats lons elevs) as [tile_pa|] eqn:Hpa; simpl in Hr |- *; [|done].
  apply pa_table_inv in Hpa as (Hl1 & Hl2 & ->).
  rewrite !app_nil_r.
  by rewrite rows_of_columns_app, IH.
Qed.

Lemma single_pass_inv (tiles : list Tile) (single : table) :
  (∀ tile, tile ∈ tiles → ∃ r, task C items band h3_res 30 tile = Ok r) →
  single_pass C items tiles band h3_res = Ok single →
  single = tile_query C h3_res (concat (tiles ≫= tile_samples C items band 30)).
Proof.
  intros Hok. unfold single_pass. intros Hs.
  apply result_bind_Ok in Hs as (loaded & Hl & Hs).
  apply load_pixels_loop_inv in Hl. simpl in Hl. subst loaded.
  apply result_bind_Ok in Hs as (lat_arr & ->%np_concatenate_inv & Hs).
  apply result_bind_Ok in Hs as (lng_arr & ->%np_concatenate_inv & Hs).
  apply result_bind_Ok in Hs as (elev_arr & ->%np_concatenate_inv & Hs).
  apply result_bind_Ok in Hs as (pixels_table & (_ & _ & ->)%pa_table_inv & Hs).
  apply result_bind_Ok in Hs as (con & _ & Hs).
  apply result_bind_Ok in Hs as (? & _ & Hs).
  injection Hs as <-. f_equal. by apply rows_of_concatenated_columns.
Qed.

Lemma keyed_concat (pas : list (list GeoSample)) :
  keyed C h3_res (concat pas) = concat (keyed C h3_res <$> pas).
Proof.
  unfold keyed. induction pas as [|pa pas IH]; simpl; [done|].
  by rewrite fmap_app, IH.
Qed.

(** A pool that returns has merged the kept tables in completion order. *)
Lemma process_all_tiles_Ok_eq (resolution : Z) (tiles : list Tile) (merged : table) :
  process_all_tiles C items tiles band h3_res resolution = Ok merged →
  merged = group_by_avg
             (concat (as_completed C tiles ≫= kept ∘ task C items band h3_res resolution)) ∧
  as_completed C tiles ≫= kept ∘ task C items band h3_res resolution ≠ [].
Proof.
  intros Hp.
  pose proof (process_all_tiles_Ok_inv resolution tiles merged Hp) as Hok.
  unfold process_all_tiles in Hp. rewrite collect_results_returns in Hp.
  2:{ intros f (tile & -> & Hin)%list_elem_of_fmap. apply Hok. by rewrite <- as_completed_perm. }
  rewrite list_fmap_bind, app_nil_l in Hp.
  change (merge_batches (as_completed C tiles ≫= kept ∘ task C items band h3_res resolution)
          = Ok merged) in Hp.
  destruct (as_completed C tiles ≫= kept ∘ task C items band h3_res resolution) as [|t ts];
    [done|].
  split; [|done]. by injection Hp as <-.
Qed.

(** Both results at one hex id, in terms of the samples the tiles have in
    it: the single pass takes the mean of all of them, tile after tile in the
    order of the tile list; the two phases take the mean of the tiles' means,
    in the order the tasks completed in. *)
Lemma both_pipelines_at_cell (tiles : list Tile) (merged single : table) (h : hex_id) :
  process_all_tiles C items tiles band h3_res 30 = Ok merged →
  single_pass C items tiles band h3_res = Ok single →
  cell_groups C items band h3_res h (as_completed C tiles)
    ≡ₚ cell_groups C items band h3_res h tiles ∧
  hex_result single !! h
  = match cell_groups C items band h3_res h tiles with
    | [] => None
    | gs => Some (AVG (concat gs))
    end ∧
  hex_result merged !! h
  = match cell_groups C items band h3_res h (as_completed C tiles) with
    | [] => None
    | gs => Some (AVG (AVG <$> gs))
    end.
Proof.
  intros Hp Hs.
  pose proof (process_all_tiles_Ok_inv 30 tiles merged Hp) as Hok.
  split; [|split].
  - unfold cell_groups. by rewrite (as_completed_perm C tiles).
  - rewrite (single_pass_inv tiles single Hok Hs). unfold tile_query.
    rewrite keyed_concat, hex_result_group_by_avg_group, group_of_concat.
    rewrite <- list_fmap_compose.
    change (filter _ _) with (cell_groups C items band h3_res h tiles).
    assert (Hne : Forall (λ g, (0 < length g)%nat) (cell_groups C items band h3_res h tiles)).
    { apply Forall_forall. by intros g [? _]%list_elem_of_filter. }
    destruct (cell_groups C items band h3_res h tiles) as [|g gs]; [done|].
    apply Forall_cons in Hne as [Hg _]. destruct g as [|v g]; [simpl in Hg; lia|done].
  - destruct (process_all_tiles_Ok_eq 30 tiles merged Hp) as [-> _].
    rewrite kept_tasks by (intros tile Hin; apply Hok; by rewrite <- (as_completed_perm C)).
    rewrite concat_filter_nonempty, hex_result_group_by_avg_group.
    change (tile_query C h3_res) with (group_by_avg ∘ keyed C h3_res).
    rewrite list_fmap_compose, group_of_local_means, <- list_fmap_compose.
    change (filter _ _) with (cell_groups C items band h3_res h (as_completed C tiles)).
    by destruct (cell_groups C items band h3_res h (as_completed C tiles)).
Qed.

(** Both results in terms of the keyed sample tables of the tiles. *)
Lemma both_pipelines_by_groups (tiles : list Tile) (merged single : table) :
  process_all_tiles C items tiles band h3_res 30 = Ok merged →
  single_pass C items tiles band h3_res = Ok single →
  let groups := keyed C h3_res <$> (tiles ≫= tile_samples C items band 30) in
  hex_result merged = hex_result (group_by_avg (concat (group_by_avg <$> groups))) ∧
  single = group_by_avg (concat groups).
Proof.
  intros Hp Hs groups.
  pose proof (process_all_tiles_Ok_inv 30 tiles merged Hp) as Hok.
  pose proof (process_all_tiles_merges C items band h3_res 30 tiles Hok) as Hm.
  rewrite Hp, (kept_tasks 30 tiles Hok) in Hm.
  split.
  - destruct (filter _ _) as [|t ts] eqn:Hf in Hm; [done|]. rewrite <- Hf in Hm.
    rewrite merge_batches_Ok in Hm by (by rewrite Hf).
    injection Hm as ->. rewrite concat_filter_nonempty.
    unfold groups, tile_query. by rewrite <- list_fmap_compose.
  - rewrite (single_pass_inv tiles single Hok Hs).
    unfold tile_query, groups. by rewrite keyed_concat.
Qed.

End Pipelines.

(** C1 (amended).  For the same tiles and collaborators, with the two-phase
    pipeline run at the resolution the single-pass cell loads at (30): when
    both pipelines return, their results have the same hex ids, and at every
    hex id the single pass gives the mean of all samples that fall in it,
    while the two phases give the unweighted mean of the tiles' means, one
    mean for each tile that has samples in it.  The tiles enter the two
    aggregates in the order of the tile list and in the order of completion;
    nothing makes the two values equal. *)
Theorem two_phase_and_single_pass_by_cell (C : Collaborators) (items : Items C)
    (tiles : list Tile) (band : string) (h3_res : Z) (merged single : table) :
  process_all_tiles C items tiles band h3_res 30 = Ok merged →
  single_pass C items tiles band h3_res = Ok single →
  dom (hex_result merged) = dom (hex_result single) ∧
  ∀ h,
    cell_groups C items band h3_res h (as_completed C tiles)
      ≡ₚ cell_groups C items band h3_res h tiles ∧
    hex_result single !! h
    = match cell_groups C items band h3_res h tiles with
      | [] => None
      | gs => Some (AVG (concat gs))
      end ∧
    hex_result merged !! h
    = match cell_groups C items band h3_res h (as_completed C tiles) with
      | [] => None
      | gs => Some (AVG (AVG <$> gs))
      end.
Proof.
  intros Hp Hs. split; [|intros h; by apply both_pipelines_at_cell].
  apply set_eq. intros h. rewrite !elem_of_dom.
  destruct (both_pipelines_at_cell C items band h3_res tiles merged single h Hp Hs)
    as (Hperm & -> & ->).
  destruct (cell_groups C items band h3_res h (as_completed C tiles)) as [|g gs],
           (cell_groups C items band h3_res h tiles) as [|g' gs'].
  - done.
  - by apply Permutation_nil_cons in Hperm.
  - symmetry in Hperm. by apply Permutation_nil_cons in Hperm.
  - split; intros _; by eexists.
Qed.

(** The input that refutes C1 as stated: cell 1 has one sample in tile 0 and
    two in tile 1; the two phases give it (0 + 3) / 2, one pass gives it
    (0 + 3 + 3) / 3. *)
Lemma mean_of_means_differs :
  let C := stub two_pixel_grid wide_cell split_three accept_all in
  let tiles := [tile0; tile1; tile2] in
  ∃ merged single,
    process_all_tiles C () tiles "data" 9 30 = Ok merged ∧
    single_pass C () tiles "data" 9 = Ok single ∧
    hex_result merged !! 1%N = Some (Q2Qc (3 # 2)) ∧
    hex_result single !! 1%N = Some (Z2f 2).
Proof.
  intros C tiles. eexists _, _.
  split; [reflexivity|]. split; [reflexivity|]. split; compute_done.
Qed.

Lemma two_phase_and_single_pass_by_cell_witness :
  let C := stub two_pixel_grid wide_cell split_three accept_all in
  let tiles := [tile0; tile1; tile2] in
  let merged : table := [(0%N, Z2f 10); (1%N, Q2Qc (3 # 2))] in
  let single : table := [(0%N, Z2f 10); (1%N, Z2f 2)] in
  process_all_tiles C () tiles "data" 9 30 = Ok merged ∧
  single_pass C () tiles "data" 9 = Ok single ∧
  dom (hex_result merged) = dom (hex_result single) ∧
  ∀ h,
    cell_groups C () "data" 9 h (as_completed C tiles)
      ≡ₚ cell_groups C () "data" 9 h tiles ∧
    hex_result single !! h
    = match cell_groups C () "data" 9 h tiles with
      | [] => None
      | gs => Some (AVG (concat gs))
      end ∧
    hex_result merged !! h
    = match cell_groups C () "data" 9 h (as_completed C tiles) with
      | [] => None
      | gs => Some (AVG (AVG <$> gs))
      end.
Proof.
  intros C tiles merged single.
  assert (Hp : process_all_tiles C () tiles "data" 9 30 = Ok merged) by compute_done.
  assert (Hs : single_pass C () tiles "data" 9 = Ok single) by compute_done.
  split; [exact Hp|]. split; [exact Hs|].
  exact (two_phase_and_single_pass_by_cell C () tiles "data" 9 merged single Hp Hs).
Defined.

(** The samples of cell 1 in that run, tile by tile, and the two aggregates. *)
Example cell_groups_of_the_wide_cells :
  let C := stub two_pixel_grid wide_cell split_three accept_all in
  cell_groups C () "data" 9 1%N [tile0; tile1; tile2] = [[Z2f 0]; [Z2f 3; Z2f 3]] ∧
  cell_groups C () "data" 9 1%N (as_completed C [tile0; tile1; tile2])
  = [[Z2f 3; Z2f 3]; [Z2f 0]] ∧
  AVG (concat [[Z2f 0]; [Z2f 3; Z2f 3]]) = Z2f 2 ∧
  AVG (AVG <$> [[Z2f 3; Z2f 3]; [Z2f 0]]) = Q2Qc (3 # 2).
Proof. intros C. repeat split; compute_done. Qed.

(** In binary64 the two aggregates differ also when the tiles have equally
    many samples in the cell: the mean of the means of (0.1, 0.2) and
    (0.3, 0.6), against the mean of the four values. *)
Example mean_of_means_rounds :
  AVG_double [AVG_double [tenths 1; tenths 2]; AVG_double [tenths 3; tenths 6]]
  ≠ AVG_double ([tenths 1; tenths 2] ++ [tenths 3; tenths 6]).
Proof.
  intros E. apply (f_equal FloatOps.Prim2SF) in E. vm_compute in E. discriminate.
Qed.

(** * Further properties *)

(** ** The planner's accuracy *)

(** Linear facts over [float] are settled over [Q]. *)
Ltac to_Q :=
  unfold Qcle, Qclt, Z2f, Qc_of_Z, Qcplus, Qcmult, Qcminus, Qcopp in *;
  simpl in *; rewrite ?Qred_correct in *; unfold inject_Z in *.

Section PlannerAccuracy.

Lemma py_round_le_1 (q : float) : py_round q ≤ 1 ↔ (2 * q < Z2f 3)%Qc.
Proof.
  split.
  - intros HR. apply Qcnot_le_lt. intros Hq.
    assert (Q2Qc (3 # 2) ≤ q)%Qc as Hq'.
    { revert Hq. to_Q. repeat rewrite Qred_correct. intros Hq. lra. }
    apply py_round_mono in Hq'. change (py_round (Q2Qc (3 # 2))) with 2 in Hq'. lia.
  - intros Hq. destruct (py_round_half q) as [Hlo _].
    destruct (decide (py_round q ≤ 1)) as [|Hgt]; [done|exfalso].
    assert (H2 : (Z2f 2 ≤ Z2f (py_round q))%Qc) by (apply (proj1 (Z2Qc_inj_le _ _)); lia).
    revert Hq Hlo H2. generalize (Z2f (py_round q)). intros R. to_Q.
    repeat rewrite Qred_correct. intros. lra.
Qed.

Lemma target_times_pixels (e : float) (p : Z) : 0 < p → (e / Z2f p * Z2f p = e)%Qc.
Proof. intros Hp. field. intros E. apply Z2f_eq_0 in E. lia. Qed.

End PlannerAccuracy.

(** X1.  For a known hex resolution, a positive native resolution and a
    positive number of pixels per edge, both within the range of the ints
    that convert to float, and an edge length that leaves edge + native
    within it, the planner returns the native resolution itself exactly when
    the target resolution (edge length / pixels per edge) is below one and a
    half native steps, that is when 2 * edge < 3 * native * pixels. *)
Theorem calculate_resolution_for_h3_native_iff
    (C : Collaborators) (h3_res native_resolution pixels_per_hex_edge : Z) (hex_edge_m : float) :
  average_hexagon_edge_length C h3_res = Ok hex_edge_m →
  0 < native_resolution < float_limit →
  0 < pixels_per_hex_edge < float_limit →
  (hex_edge_m + Z2f native_resolution ≤ Z2f float_limit)%Qc →
  ∃ r : Z,
    calculate_resolution_for_h3 C h3_res native_resolution pixels_per_hex_edge = Ok r ∧
    (r = native_resolution ↔
     (2 * hex_edge_m < Z2f (3 * native_resolution * pixels_per_hex_edge))%Qc).
Proof.
  intros He Hn Hp Hroom. eexists. split; [by apply calculate_resolution_for_h3_eq|].
  set (q := (hex_edge_m / Z2f pixels_per_hex_edge / Z2f native_resolution)%Qc).
  assert (HN : (0 < Z2f native_resolution)%Qc) by (apply Z2f_pos; lia).
  assert (HP : (0 < Z2f pixels_per_hex_edge)%Qc) by (apply Z2f_pos; lia).
  assert (Hq : (q * (Z2f native_resolution * Z2f pixels_per_hex_edge) = hex_edge_m)%Qc).
  { unfold q. field. split; intros E; apply Z2f_eq_0 in E; lia. }
  transitivity (py_round q ≤ 1); [nia|].
  rewrite py_round_le_1.
  rewrite (Qcmult_lt_mono_pos_r _ _ (Z2f native_resolution * Z2f pixels_per_hex_edge)%Qc)
    by (by apply Qcmult_pos_pos).
  replace (2 * q * (Z2f native_resolution * Z2f pixels_per_hex_edge))%Qc
    with (2 * hex_edge_m)%Qc by (rewrite <- Hq at 1; ring).
  replace (Z2f 3 * (Z2f native_resolution * Z2f pixels_per_hex_edge))%Qc
    with (Z2f (3 * native_resolution * pixels_per_hex_edge)); [done|].
  unfold Z2f. rewrite !Z2Qc_inj_mul. ring.
Qed.

Lemma calculate_resolution_for_h3_native_iff_witness :
  let C := stub two_pixel_grid unit_cell split_three accept_all in
  let hex_edge_m := Q2Qc (28663897 # 1000000) in
  average_hexagon_edge_length C 11 = Ok hex_edge_m ∧
  0 < 10 < float_limit ∧ 0 < 6 < float_limit ∧
  (hex_edge_m + Z2f 10 ≤ Z2f float_limit)%Qc ∧
  ∃ r : Z,
    calculate_resolution_for_h3 C 11 10 6 = Ok r ∧
    (r = 10 ↔ (2 * hex_edge_m < Z2f (3 * 10 * 6))%Qc).
Proof.
  intros C hex_edge_m.
  assert (He : average_hexagon_edge_length C 11 = Ok hex_edge_m) by reflexivity.
  assert (Hn : 0 < 10 < float_limit) by (split; reflexivity).
  assert (Hp : 0 < 6 < float_limit) by (split; reflexivity).
  assert (Hroom : (hex_edge_m + Z2f 10 ≤ Z2f float_limit)%Qc) by (vm_compute; discriminate).
  split; [exact He|]. split; [exact Hn|]. split; [exact Hp|]. split; [exact Hroom|].
  exact (calculate_resolution_for_h3_native_iff C 11 10 6 hex_edge_m He Hn Hp Hroom).
Defined.

(** X2.  On the same domain (a known hex resolution, a positive native
    resolution and a positive number of pixels per edge that convert to
    float, edge + native within the float range) the planner keeps the
    promise of its docstring, about [pixels_per_hex_edge] pixels per hex
    edge, within a factor of one and a half: the pixels per edge it
    achieves, edge / resolution, are at most 3/2 of the requested number,
    and at least 2/3 of it when the target resolution is not below the
    native one.  (Stated without division: 2 * edge ≤ 3 * pixels *
    resolution, and 2 * pixels * resolution ≤ 3 * edge when native * pixels
    ≤ edge.) *)
Theorem calculate_resolution_for_h3_pixels_per_edge
    (C : Collaborators) (h3_res native_resolution pixels_per_hex_edge : Z) (hex_edge_m : float) :
  average_hexagon_edge_length C h3_res = Ok hex_edge_m →
  0 < native_resolution < float_limit →
  0 < pixels_per_hex_edge < float_limit →
  (hex_edge_m + Z2f native_resolution ≤ Z2f float_limit)%Qc →
  ∃ r : Z,
    calculate_resolution_for_h3 C h3_res native_resolution pixels_per_hex_edge = Ok r ∧
    (2 * hex_edge_m ≤ Z2f (3 * pixels_per_hex_edge * r))%Qc ∧
    ((Z2f (native_resolution * pixels_per_hex_edge) ≤ hex_edge_m)%Qc →
     (Z2f (2 * pixels_per_hex_edge * r) ≤ Z2f 3 * hex_edge_m)%Qc).
Proof.
  intros He Hn Hp Hroom. eexists. split; [by apply calculate_resolution_for_h3_eq|].
  set (t := (hex_edge_m / Z2f pixels_per_hex_edge)%Qc).
  set (m := py_round (t / Z2f native_resolution)%Qc * native_resolution).
  set (r := Z.max m native_resolution).
  destruct (round_steps_nearest t native_resolution ltac:(lia)) as (_ & Hlo & Hhi).
  fold m in Hlo, Hhi.
  assert (HP : (0 < Z2f pixels_per_hex_edge)%Qc) by (apply Z2f_pos; lia).
  assert (HN : (0 < Z2f native_resolution)%Qc) by (apply Z2f_pos; lia).
  assert (Ht : (t * Z2f pixels_per_hex_edge = hex_edge_m)%Qc)
    by (apply target_times_pixels; lia).
  assert (Hm : (Z2f m ≤ Z2f r)%Qc) by (apply (proj1 (Z2Qc_inj_le _ _)); lia).
  assert (Hnr : (Z2f native_resolution ≤ Z2f r)%Qc) by (apply (proj1 (Z2Qc_inj_le _ _)); lia).
  assert (Hr : Z2f r = Z2f m ∨ Z2f r = Z2f native_resolution)
    by (destruct (Z.max_spec m native_resolution) as [[_ E]|[_ E]]; fold r in E; rewrite E; auto).
  unfold Z2f in Hlo, Hhi. rewrite Z2Qc_inj_sub, Z2Qc_inj_mul, Z2Qc_inj_2 in Hlo.
  rewrite Z2Qc_inj_add, Z2Qc_inj_mul, Z2Qc_inj_2 in Hhi. fold (Z2f m) (Z2f native_resolution) in Hlo, Hhi.
  split.
  - replace (Z2f (3 * pixels_per_hex_edge * r))
      with (Z2f 3 * Z2f r * Z2f pixels_per_hex_edge)%Qc
      by (unfold Z2f; rewrite !Z2Qc_inj_mul; ring).
    replace (2 * hex_edge_m)%Qc with (2 * t * Z2f pixels_per_hex_edge)%Qc
      by (rewrite <- Ht; ring).
    apply Qcmult_le_mono_pos_r; [done|].
    revert Hhi Hm Hnr. generalize (Z2f m) (Z2f native_resolution) (Z2f r). intros M N R.
    to_Q. intros. lra.
  - intros Hge.
    assert (HNt : (Z2f native_resolution ≤ t)%Qc).
    { apply (Qcmult_le_mono_pos_r _ _ (Z2f pixels_per_hex_edge)); [done|].
      rewrite Ht. unfold Z2f in *. by rewrite <- Z2Qc_inj_mul. }
    replace (Z2f (2 * pixels_per_hex_edge * r))
      with (2 * Z2f r * Z2f pixels_per_hex_edge)%Qc
      by (unfold Z2f; rewrite !Z2Qc_inj_mul, Z2Qc_inj_2; ring).
    replace (Z2f 3 * hex_edge_m)%Qc with (Z2f 3 * t * Z2f pixels_per_hex_edge)%Qc
      by (rewrite <- Ht; ring).
    apply Qcmult_le_mono_pos_r; [done|].
    revert Hlo HNt HN Hr. generalize (Z2f m) (Z2f native_resolution) (Z2f r). intros M N R.
    intros Hlo HNt HN [-> | ->]; revert Hlo HNt HN; to_Q; intros; lra.
Qed.

Lemma calculate_resolution_for_h3_pixels_per_edge_witness :
  let C := stub two_pixel_grid unit_cell split_three accept_all in
  let hex_edge_m := Q2Qc (200786148 # 1000000) in
  average_hexagon_edge_length C 9 = Ok hex_edge_m ∧
  0 < 10 < float_limit ∧ 0 < 6 < float_limit ∧
  (hex_edge_m + Z2f 10 ≤ Z2f float_limit)%Qc ∧
  ∃ r : Z,
    calculate_resolution_for_h3 C 9 10 6 = Ok r ∧
    (2 * hex_edge_m ≤ Z2f (3 * 6 * r))%Qc ∧
    ((Z2f (10 * 6) ≤ hex_edge_m)%Qc → (Z2f (2 * 6 * r) ≤ Z2f 3 * hex_edge_m)%Qc).
Proof.
  intros C hex_edge_m.
  assert (He : average_hexagon_edge_length C 9 = Ok hex_edge_m) by reflexivity.
  assert (Hn : 0 < 10 < float_limit) by (split; reflexivity).
  assert (Hp : 0 < 6 < float_limit) by (split; reflexivity).
  assert (Hroom : (hex_edge_m + Z2f 10 ≤ Z2f float_limit)%Qc) by (vm_compute; discriminate).
  split; [exact He|]. split; [exact Hn|]. split; [exact Hp|]. split; [exact Hroom|].
  exact (calculate_resolution_for_h3_pixels_per_edge C 9 10 6 hex_edge_m He Hn Hp Hroom).
Defined.


(** ** The pool: schedules, failures, dropped tiles *)

(** X4.  One worker that raises aborts the run whatever the other tiles
    produced: the pool raises the exception of the first task, in completion
    order, whose worker raised. *)
Theorem process_all_tiles_first_failure (C : Collaborators) (items : Items C)
    (tiles completed_before rest : list Tile) (tile : Tile)
    (band : string) (h3_res resolution : Z) (e : exn) :
  as_completed C tiles = completed_before ++ tile :: rest →
  (∀ t, t ∈ completed_before →
     ∃ r, process_tile_to_h3 C t items band h3_res resolution = Ok r) →
  process_tile_to_h3 C tile items band h3_res resolution = Raise e →
  process_all_tiles C items tiles band h3_res resolution = Raise e.
Proof.
  intros Hsched Hbefore Hraise. unfold process_all_tiles. rewrite Hsched, fmap_app, fmap_cons.
  assert (Hdone : ∃ rs, task C items band h3_res resolution <$> completed_before = Ok <$> rs).
  { clear Hsched. induction completed_before as [|t l IH]; [by exists []|].
    destruct IH as [rs Hrs]; [intros; apply Hbefore; by right|].
    destruct (Hbefore t) as [r Hr]; [by left|].
    exists (r :: rs). rewrite !fmap_cons. unfold task at 1. by rewrite Hr, Hrs. }
  destruct Hdone as [rs ->]. unfold task at 1. rewrite Hraise.
  by rewrite collect_results_raises.
Qed.

Lemma process_all_tiles_first_failure_witness :
  let C := stub two_pixel_grid unit_cell split_three reject_all in
  let e := LibraryError "duckdb.OutOfMemoryException" in
  as_completed C [tile0; tile1; tile2] = [tile2] ++ tile1 :: [tile0] ∧
  (∀ t, t ∈ [tile2] → ∃ r, process_tile_to_h3 C t () "data" 9 30 = Ok r) ∧
  process_tile_to_h3 C tile1 () "data" 9 30 = Raise e ∧
  process_all_tiles C () [tile0; tile1; tile2] "data" 9 30 = Raise e.
Proof.
  intros C e.
  assert (Hs : as_completed C [tile0; tile1; tile2] = [tile2] ++ tile1 :: [tile0])
    by reflexivity.
  assert (Hb : ∀ t, t ∈ [tile2] → ∃ r, process_tile_to_h3 C t () "data" 9 30 = Ok r).
  { intros t Hin. apply list_elem_of_singleton in Hin as ->. eexists; reflexivity. }
  assert (Hr : process_tile_to_h3 C tile1 () "data" 9 30 = Raise e) by reflexivity.
  split; [exact Hs|]. split; [exact Hb|]. split; [exact Hr|].
  exact (process_all_tiles_first_failure C () _ _ _ _ "data" 9 30 e Hs Hb Hr).
Defined.

(** X5.  The completion order decides only the order in which the kept
    tables are concatenated: when no worker raises, the pool under any other
    schedule merges the same tables, in another order.  Both runs fail with
    the error for no data or both return, and then with the same hex ids. *)
Theorem process_all_tiles_schedule (C : Collaborators) (items : Items C)
    (tiles : list Tile) (band : string) (h3_res resolution : Z)
    (order : list Tile → list Tile) (order_perm : ∀ l, order l ≡ₚ l) :
  (∀ tile, tile ∈ tiles →
     ∃ r, process_tile_to_h3 C tile items band h3_res resolution = Ok r) →
  let kept_of := λ l : list Tile, l ≫= kept ∘ task C items band h3_res resolution in
  let other := process_all_tiles (with_schedule C order order_perm) items tiles
                 band h3_res resolution in
  let this := process_all_tiles C items tiles band h3_res resolution in
  other = merge_batches (kept_of (order tiles)) ∧
  this = merge_batches (kept_of (as_completed C tiles)) ∧
  kept_of (order tiles) ≡ₚ kept_of (as_completed C tiles) ∧
  ((other = Raise (RuntimeError "No tiles produced data") ∧
    this = Raise (RuntimeError "No tiles produced data")) ∨
   ∃ merged' merged, other = Ok merged' ∧ this = Ok merged ∧
                     dom (hex_result merged') = dom (hex_result merged)).
Proof.
  intros Hok kept_of other this.
  assert (Hrun : ∀ (C' : Collaborators) (its : Items C') (sched : list Tile),
            (∀ tile, tile ∈ sched → ∃ r, task C' its band h3_res resolution tile = Ok r) →
            collect_results (task C' its band h3_res resolution <$> sched) []
              ≫= merge_batches
            = merge_batches (sched ≫= kept ∘ task C' its band h3_res resolution)).
  { intros C' its sched Hs. rewrite collect_results_returns.
    - by rewrite list_fmap_bind, app_nil_l.
    - intros f (tile & -> & Hin)%list_elem_of_fmap. by apply Hs. }
  assert (Hother : other = merge_batches (kept_of (order tiles))).
  { apply (Hrun (with_schedule C order order_perm) items (order tiles)).
    intros tile Hin. apply Hok. by rewrite <- (order_perm tiles). }
  assert (Hthis : this = merge_batches (kept_of (as_completed C tiles))).
  { apply (Hrun C items (as_completed C tiles)).
    intros tile Hin. apply Hok. by rewrite <- (as_completed_perm C tiles). }
  assert (Hperm : kept_of (order tiles) ≡ₚ kept_of (as_completed C tiles)).
  { unfold kept_of. by rewrite (order_perm tiles), (as_completed_perm C tiles). }
  split; [done|]. split; [done|]. split; [done|].
  rewrite Hother, Hthis.
  destruct (kept_of (order tiles)) as [|t ts] eqn:E1,
           (kept_of (as_completed C tiles)) as [|t' ts'] eqn:E2.
  - by left.
  - by apply Permutation_nil_cons in Hperm.
  - symmetry in Hperm. by apply Permutation_nil_cons in Hperm.
  - right. eexists _, _. split; [reflexivity|]. split; [reflexivity|].
    apply set_eq. intros h. rewrite !elem_of_dom, !hex_result_group_by_avg.
    assert (Hk : h ∈ (concat (t :: ts)).*1 ↔ h ∈ (concat (t' :: ts')).*1)
      by (by rewrite Hperm).
    destruct (decide _), (decide _); try tauto; split; intros [? ?]; done.
Qed.

Lemma process_all_tiles_schedule_witness :
  let C := stub two_pixel_grid unit_cell split_three accept_all in
  let tiles := [tile0; tile1; tile2] in
  (∀ tile, tile ∈ tiles → ∃ r, process_tile_to_h3 C tile () "data" 9 30 = Ok r) ∧
  let kept_of := λ l : list Tile, l ≫= kept ∘ task C () "data" 9 30 in
  let other := process_all_tiles (with_schedule C id (λ l, Permutation_refl l)) () tiles
                 "data" 9 30 in
  let this := process_all_tiles C () tiles "data" 9 30 in
  other = merge_batches (kept_of (id tiles)) ∧
  this = merge_batches (kept_of (as_completed C tiles)) ∧
  kept_of (id tiles) ≡ₚ kept_of (as_completed C tiles) ∧
  ((other = Raise (RuntimeError "No tiles produced data") ∧
    this = Raise (RuntimeError "No tiles produced data")) ∨
   ∃ merged' merged, other = Ok merged' ∧ this = Ok merged ∧
                     dom (hex_result merged') = dom (hex_result merged)).
Proof.
  intros C tiles.
  assert (Hok : ∀ tile, tile ∈ tiles → ∃ r, process_tile_to_h3 C tile () "data" 9 30 = Ok r).
  { intros tile Hin. unfold tiles in Hin.
    apply elem_of_cons in Hin as [->|Hin]; [eexists; reflexivity|].
    apply elem_of_cons in Hin as [->|Hin]; [eexists; reflexivity|].
    apply list_elem_of_singleton in Hin as ->. eexists; reflexivity. }
  split; [exact Hok|].
  exact (process_all_tiles_schedule C () tiles "data" 9 30 id _ Hok).
Defined.



(** ** What the pool prints *)

Section PoolOutput.

Lemma remove_dups_length_le `{EqDecision A} (l : list A) :
  (length (remove_dups l) ≤ length l)%nat.
Proof.
  induction l as [|x l IH]; simpl; [done|].
  destruct (decide_rel _ _ _); simpl; lia.
Qed.

Lemma remove_dups_length_eq `{EqDecision A} (l : list A) :
  length (remove_dups l) = length l ↔ NoDup l.
Proof.
  induction l as [|x l IH]; simpl.
  - split; [intros _; constructor|done].
  - pose proof (remove_dups_length_le l) as Hle.
    destruct (decide_rel _ _ _) as [Hin|Hnin]; simpl.
    + split; [lia|]. intros [Hx _]%NoDup_cons. done.
    + rewrite NoDup_cons. split.
      * intros E. split; [done|]. apply IH. lia.
      * intros [_ Hnd]. f_equal. by apply IH.
Qed.

Lemma group_by_avg_length (rows : table) :
  length (group_by_avg rows) = length (remove_dups rows.*1).
Proof. unfold group_by_avg. by rewrite length_fmap. Qed.

Lemma collect_results_log_result (futures : list (result (option table)))
    (batches : list table) (completed total : nat) :
  (collect_results_log futures batches completed total).2 = collect_results futures batches.
Proof.
  revert batches completed. induction futures as [|f futures IH]; intros batches completed.
  - done.
  - destruct f as [r|e]; [|done]. simpl. apply IH.
Qed.

(** The progress lines of [total] tasks: counts that are a multiple of 100,
    and the last count. *)
Lemma collect_results_log_progress (rs : list (option table)) (batches : list table)
    (completed total : nat) :
  (collect_results_log (Ok <$> rs) batches completed total).1
  = (λ k, Processed k total)
      <$> filter (λ k, k `mod` 100 = 0 ∨ k = total)%nat (seq (S completed) (length rs)).
Proof.
  revert batches completed. induction rs as [|r rs IH]; intros batches completed; [done|].
  rewrite fmap_cons. cbn [collect_results_log fst snd]. rewrite IH.
  cbn [length seq]. rewrite filter_cons. by destruct (decide _).
Qed.

End PoolOutput.

(** X7.  The two counts the pool prints before it returns: the rows of the
    concatenated per-tile tables, then the rows of the merged table.  The
    second is never larger than the first, and they are equal exactly when
    no hex id occurs in the tables of two tiles. *)
Theorem process_all_tiles_log_counts (C : Collaborators) (items : Items C)
    (tiles : list Tile) (band : string) (h3_res resolution : Z)
    (log : list output) (merged : table) :
  process_all_tiles_log C items tiles band h3_res resolution = (log, Ok merged) →
  let combined :=
    concat (as_completed C tiles ≫= kept ∘ task C items band h3_res resolution) in
  process_all_tiles C items tiles band h3_res resolution = Ok merged ∧
  (∃ progress,
     log = progress ++ [PreMergeHexCount (length combined);
                        FinalH3Hexagons (length merged)]) ∧
  (length merged ≤ length combined)%nat ∧
  (length merged = length combined ↔ NoDup combined.*1).
Proof.
  intros Hlog combined.
  assert (Hp : process_all_tiles C items tiles band h3_res resolution = Ok merged).
  { unfold process_all_tiles_log in Hlog. unfold process_all_tiles.
    rewrite collect_results_log_result in Hlog.
    destruct (collect_results _ _) as [[|t ts]|e]; simpl in *; by simplify_eq. }
  split; [done|].
  destruct (process_all_tiles_Ok_eq C items band h3_res resolution tiles merged Hp)
    as [Hm Hne].
  fold combined in Hm.
  assert (Hc : collect_results (task C items band h3_res resolution <$> as_completed C tiles) []
               = Ok (as_completed C tiles ≫= kept ∘ task C items band h3_res resolution)).
  { rewrite collect_results_returns; [by rewrite list_fmap_bind|].
    intros f (tile & -> & Hin)%list_elem_of_fmap.
    apply (process_all_tiles_Ok_inv C items band h3_res resolution tiles merged Hp).
    by rewrite <- (as_completed_perm C). }
  split.
  - unfold process_all_tiles_log in Hlog. rewrite collect_results_log_result, Hc in Hlog.
    destruct (as_completed C tiles ≫= kept ∘ task C items band h3_res resolution)
      as [|t ts] eqn:Hk; [done|].
    injection Hlog as <- <-. by eexists.
  - rewrite Hm, group_by_avg_length, <- (length_fmap fst combined).
    split; [apply remove_dups_length_le | apply remove_dups_length_eq].
Qed.

Lemma process_all_tiles_log_counts_witness :
  let C := stub two_pixel_grid unit_cell split_three accept_all in
  let tiles := [tile0; tile1; tile2] in
  let log := [Processed 3 3; PreMergeHexCount 4; FinalH3Hexagons 3] in
  let merged : table := [(2%N, Z2f 3); (0%N, Z2f 10); (1%N, Q2Qc (3 # 2))] in
  process_all_tiles_log C () tiles "data" 9 30 = (log, Ok merged) ∧
  let combined := concat (as_completed C tiles ≫= kept ∘ task C () "data" 9 30) in
  process_all_tiles C () tiles "data" 9 30 = Ok merged ∧
  (∃ progress,
     log = progress ++ [PreMergeHexCount (length combined);
                        FinalH3Hexagons (length merged)]) ∧
  (length merged ≤ length combined)%nat ∧
  (length merged = length combined ↔ NoDup combined.*1).
Proof.
  intros C tiles log merged.
  assert (Hlog : process_all_tiles_log C () tiles "data" 9 30 = (log, Ok merged))
    by compute_done.
  split; [exact Hlog|].
  exact (process_all_tiles_log_counts C () tiles "data" 9 30 log merged Hlog).
Defined.

(** X8.  Progress is reported for every completed task, also for those
    without data: when no worker raises, the pool prints a line after each
    hundredth completed task and after the last one, in this order, before
    the two counts; unless there are no tiles, the last progress line
    reads total/total. *)
Theorem process_all_tiles_log_progress (C : Collaborators) (items : Items C)
    (tiles : list Tile) (band : string) (h3_res resolution : Z) :
  (∀ tile, tile ∈ tiles →
     ∃ r, process_tile_to_h3 C tile items band h3_res resolution = Ok r) →
  let total := length tiles in
  let progress :=
    (λ k, Processed k total)
      <$> filter (λ k, k `mod` 100 = 0 ∨ k = total)%nat (seq 1 total) in
  (∃ counts, (process_all_tiles_log C items tiles band h3_res resolution).1
             = progress ++ counts ∧
             Forall (λ o, ∀ k n, o ≠ Processed k n) counts) ∧
  (tiles ≠ [] → last progress = Some (Processed total total)).
Proof.
  intros Hok total progress.
  assert (Hrs : ∃ rs, task C items band h3_res resolution <$> as_completed C tiles
                      = Ok <$> rs ∧ length rs = total).
  { assert (Hok' : ∀ tile, tile ∈ as_completed C tiles →
               ∃ r, process_tile_to_h3 C tile items band h3_res resolution = Ok r)
      by (intros tile Hin; apply Hok; by rewrite <- (as_completed_perm C)).
    unfold total. rewrite <- (Permutation_length (as_completed_perm C tiles)).
    induction (as_completed C tiles) as [|t l IH]; [by exists []|].
    destruct IH as (rs & Hrs & Hlen); [intros; apply Hok'; by right|].
    destruct (Hok' t) as [r Hr]; [by left|].
    exists (r :: rs). rewrite !fmap_cons. unfold task at 1. rewrite Hr, Hrs. simpl.
    by rewrite Hlen. }
  destruct Hrs as (rs & Hrs & Hlen). split.
  - unfold process_all_tiles_log. fold total. rewrite Hrs.
    pose proof (collect_results_log_progress rs [] 0 total) as Hprog.
    rewrite Hlen in Hprog. fold progress in Hprog.
    destruct (collect_results_log (Ok <$> rs) [] 0 total) as [lines [[|t ts]|e]];
      simpl in Hprog |- *; subst lines.
    + exists []. by rewrite app_nil_r.
    + eexists. split; [done|]. repeat constructor; done.
    + exists []. by rewrite app_nil_r.
  - intros Hne. unfold progress, total. destruct tiles as [|t l]; [done|].
    cbn [length]. rewrite seq_S, filter_app, fmap_app, last_app.
    rewrite filter_cons, filter_nil. destruct (decide _) as [|Hn]; [done|].
    exfalso. apply Hn. by right.
Qed.

Lemma process_all_tiles_log_progress_witness :
  let C := stub two_pixel_grid unit_cell split_three accept_all in
  let tiles := [tile0; tile1; tile2] in
  (∀ tile, tile ∈ tiles → ∃ r, process_tile_to_h3 C tile () "data" 9 30 = Ok r) ∧
  let total := length tiles in
  let progress :=
    (λ k, Processed k total)
      <$> filter (λ k, k `mod` 100 = 0 ∨ k = total)%nat (seq 1 total) in
  (∃ counts, (process_all_tiles_log C () tiles "data" 9 30).1 = progress ++ counts ∧
             Forall (λ o, ∀ k n, o ≠ Processed k n) counts) ∧
  (tiles ≠ [] → last progress = Some (Processed total total)).
Proof.
  intros C tiles.
  assert (Hok : ∀ tile, tile ∈ tiles → ∃ r, process_tile_to_h3 C tile () "data" 9 30 = Ok r).
  { intros tile Hin. unfold tiles in Hin.
    apply elem_of_cons in Hin as [->|Hin]; [eexists; reflexivity|].
    apply elem_of_cons in Hin as [->|Hin]; [eexists; reflexivity|].
    apply list_elem_of_singleton in Hin as ->. eexists; reflexivity. }
  split; [exact Hok|].
  exact (process_all_tiles_log_progress C () tiles "data" 9 30 Hok).
Defined.

(** ** The worker: pixels, cells and local means *)

Lemma result_bind_ret {A B} (a : A) (k : A → result B) : Ok a ≫= k = k a.
Proof. done. Qed.

Section Worker.

Context (f : float → float → float * float).

Abbreviation lon_of := (λ x y, (f x y).1).
Abbreviation lat_of := (λ x y, (f x y).2).

Lemma row_aligned (xs row : list float) (y : float) :
  rows_of_columns (zip_with lat_of xs (replicate (length xs) y))
    (zip_with lon_of xs (replicate (length xs) y)) row
  = zip_with (λ x v, mkSample (f x y).2 (f x y).1 v) xs row.
Proof.
  unfold rows_of_columns. revert row. induction xs as [|x xs IH]; intros row; [done|].
  destruct row as [|v row]; [done|]. simpl. f_equal. apply IH.
Qed.

Lemma meshgrid_lengths (xs ys : list float) :
  length (concat (meshgrid xs ys).1) = (length ys * length xs)%nat ∧
  length (concat (meshgrid xs ys).2) = (length ys * length xs)%nat.
Proof.
  unfold meshgrid. cbn [fst snd].
  split; (induction ys as [|y ys IH]; [done|]);
    rewrite fmap_cons; cbn [concat]; rewrite length_app, IH, ?length_replicate; simpl; lia.
Qed.

Lemma concat_rows_length (xs ys : list float) (rows : list (list float)) :
  length rows = length ys → Forall (λ row, length row = length xs) rows →
  length (concat rows) = (length ys * length xs)%nat.
Proof.
  revert ys. induction rows as [|row rows IH]; intros [|y ys] Hlen Hrows; try done.
  apply Forall_cons in Hrows as [Hrow Hrows]. simpl.
  rewrite length_app, Hrow, (IH ys); [done|by injection Hlen|done].
Qed.

Lemma grid_aligned (xs ys : list float) (rows : list (list float)) :
  length rows = length ys → Forall (λ row, length row = length xs) rows →
  rows_of_columns
    (zip_with lat_of (concat (meshgrid xs ys).1) (concat (meshgrid xs ys).2))
    (zip_with lon_of (concat (meshgrid xs ys).1) (concat (meshgrid xs ys).2))
    (concat rows)
  = concat (zip_with
              (λ y row, zip_with (λ x v, mkSample (f x y).2 (f x y).1 v) xs row) ys rows).
Proof.
  unfold meshgrid. simpl. revert rows.
  induction ys as [|y ys IH]; intros [|row rows] Hlen Hrows; try done.
  apply Forall_cons in Hrows as [Hrow Hrows]. simpl.
  rewrite !zip_with_app by (by rewrite length_replicate).
  rewrite rows_of_columns_app.
  - rewrite row_aligned, IH; [done|by injection Hlen|done].
  - rewrite !length_zip_with. done.
  - rewrite length_zip_with, length_replicate. lia.
Qed.

End Worker.

(** X9.  Values meet their coordinates: for a raster whose value array has
    one row per y coordinate and one column per x coordinate, and a
    reprojection that acts point by point, the tile's sample table lists,
    row by row, the value at (row i, column j) with the reprojected point
    (x[j], y[i]); it has as many rows as the raster has pixels, and the
    worker's outcome is that of the session on this table. *)
Theorem tile_samples_aligned (C : Collaborators) (items : Items C) (band : string)
    (h3_res resolution : Z) (tile : Tile) (ds : Dataset C) (arr : SampleGrid)
    (f : float → float → float * float) :
  odc_stac_load C items resolution band (tms_bounds C tile) = Ok ds →
  max_over_time C ds band = Ok arr →
  length (vals arr) = length (y_coords arr) →
  Forall (λ row, length row = length (x_coords arr)) (vals arr) →
  (∀ xs ys, length xs = length ys →
     transform C xs ys = Ok (zip_with (λ x y, (f x y).1) xs ys,
                             zip_with (λ x y, (f x y).2) xs ys)) →
  tile_samples C items band resolution tile = [pixel_samples f arr] ∧
  length (pixel_samples f arr) = (length (y_coords arr) * length (x_coords arr))%nat ∧
  process_tile_to_h3 C tile items band h3_res resolution
  = (con ← get_con C;
     _ ← sql_runs C con (pixel_samples f arr);
     Ok (Some (tile_query C h3_res (pixel_samples f arr)))).
Proof.
  intros Hload Hmax Hrows Hcols Hf.
  destruct (meshgrid_lengths (x_coords arr) (y_coords arr)) as [HX HY].
  pose proof (concat_rows_length _ _ _ Hrows Hcols) as HV.
  assert (Hpx : load_tile_pixels C items band resolution tile
                = Ok (Some (zip_with (λ x y, (f x y).2)
                              (concat (meshgrid (x_coords arr) (y_coords arr)).1)
                              (concat (meshgrid (x_coords arr) (y_coords arr)).2),
                            zip_with (λ x y, (f x y).1)
                              (concat (meshgrid (x_coords arr) (y_coords arr)).1)
                              (concat (meshgrid (x_coords arr) (y_coords arr)).2),
                            concat (vals arr)))).
  { unfold load_tile_pixels. rewrite Hload. simpl. rewrite Hmax. simpl.
    pose proof HX as HX'. pose proof HY as HY'.
    unfold meshgrid in HX', HY'. cbn [fst snd] in HX', HY'.
    rewrite Hf by (by rewrite HX', HY'). done. }
  assert (Hpa : pa_table
                  (zip_with (λ x y, (f x y).2)
                     (concat (meshgrid (x_coords arr) (y_coords arr)).1)
                     (concat (meshgrid (x_coords arr) (y_coords arr)).2))
                  (zip_with (λ x y, (f x y).1)
                     (concat (meshgrid (x_coords arr) (y_coords arr)).1)
                     (concat (meshgrid (x_coords arr) (y_coords arr)).2))
                  (concat (vals arr))
                = Ok (pixel_samples f arr)).
  { unfold pa_table. rewrite !length_zip_with, HX, HY, HV.
    destruct (decide _) as [_|Hn]; [|exfalso; apply Hn; lia].
    f_equal. by apply grid_aligned. }
  split; [|split].
  - unfold tile_samples. by rewrite Hpx, Hpa.
  - unfold pixel_samples. rewrite <- (grid_aligned f _ _ _ Hrows Hcols).
    unfold rows_of_columns. rewrite !length_zip_with, HX, HY, HV. lia.
  - unfold process_tile_to_h3. rewrite Hpx, result_bind_ret. cbv beta iota.
    by rewrite Hpa, result_bind_ret.
Qed.

Lemma tile_samples_aligned_witness :
  let C := stub two_pixel_grid unit_cell split_three accept_all in
  let arr := mkGrid [[Z2f 10; Z2f 0]] [Q2Qc (1 # 4); Q2Qc (3 # 4)] [Q2Qc (1 # 2)] in
  let f := λ x y : float, (x, y) in
  odc_stac_load C () 30 "data" (tms_bounds C tile0) = Ok arr ∧
  max_over_time C arr "data" = Ok arr ∧
  length (vals arr) = length (y_coords arr) ∧
  Forall (λ row, length row = length (x_coords arr)) (vals arr) ∧
  (∀ xs ys, length xs = length ys →
     transform C xs ys = Ok (zip_with (λ x y, (f x y).1) xs ys,
                             zip_with (λ x y, (f x y).2) xs ys)) ∧
  tile_samples C () "data" 30 tile0 = [pixel_samples f arr] ∧
  length (pixel_samples f arr) = (length (y_coords arr) * length (x_coords arr))%nat ∧
  process_tile_to_h3 C tile0 () "data" 9 30
  = (con ← get_con C;
     _ ← sql_runs C con (pixel_samples f arr);
     Ok (Some (tile_query C 9 (pixel_samples f arr)))).
Proof.
  intros C arr f.
  assert (Hload : odc_stac_load C () 30 "data" (tms_bounds C tile0) = Ok arr) by reflexivity.
  assert (Hmax : max_over_time C arr "data" = Ok arr) by reflexivity.
  assert (Hrows : length (vals arr) = length (y_coords arr)) by reflexivity.
  assert (Hcols : Forall (λ row, length row = length (x_coords arr)) (vals arr))
    by (repeat constructor).
  assert (Hf : ∀ xs ys, length xs = length ys →
     transform C xs ys = Ok (zip_with (λ x y, (f x y).1) xs ys,
                             zip_with (λ x y, (f x y).2) xs ys)).
  { intros xs ys Hlen. simpl. f_equal. f_equal.
    - clear -Hlen. revert ys Hlen. induction xs as [|x xs IH]; intros [|y ys] Hlen; try done.
      simpl. f_equal. apply IH. by injection Hlen.
    - clear -Hlen. revert ys Hlen. induction xs as [|x xs IH]; intros [|y ys] Hlen; try done.
      simpl. f_equal. apply IH. by injection Hlen. }
  split; [exact Hload|]. split; [exact Hmax|]. split; [exact Hrows|].
  split; [exact Hcols|]. split; [exact Hf|].
  exact (tile_samples_aligned C () "data" 9 30 tile0 arr arr f Hload Hmax Hrows Hcols Hf).
Defined.

Section LocalMeans.

Lemma process_tile_to_h3_Some_inv (C : Collaborators) (tile : Tile) (items : Items C)
    (band : string) (h3_res resolution : Z) (t : table) :
  process_tile_to_h3 C tile items band h3_res resolution = Ok (Some t) →
  ∃ tile_pa, tile_samples C items band resolution tile = [tile_pa] ∧
             t = tile_query C h3_res tile_pa.
Proof.
  unfold process_tile_to_h3, tile_samples.
  destruct (load_tile_pixels C items band resolution tile) as [[[[lats lons] elevs]|]|e];
    simpl; [|done..].
  destruct (pa_table lats lons elevs) as [tile_pa|]; simpl; [|done].
  destruct (get_con C) as [con|]; simpl; [|done].
  destruct (sql_runs C con tile_pa); simpl; [|done].
  intros [= <-]. by exists tile_pa.
Qed.

Lemma samples_in_cell_0 (C : Collaborators) (h3_res : Z) (h : hex_id)
    (tile_pa : list GeoSample) :
  samples_in_cell C h3_res h tile_pa = 0%nat ↔ h ∉ (keyed C h3_res tile_pa).*1.
Proof.
  unfold samples_in_cell. rewrite <- group_of_nil_iff.
  by destruct (group_of h (keyed C h3_res tile_pa)).
Qed.

End LocalMeans.

(** X10.  The table a worker returns has one row per cell that contains a
    sample of the tile, with the mean elevation of the cell's samples: no
    hex id twice, not more rows than samples, and no rows exactly when the
    tile has no samples. *)
Theorem process_tile_to_h3_local_means (C : Collaborators) (tile : Tile) (items : Items C)
    (band : string) (h3_res resolution : Z) (t : table) :
  process_tile_to_h3 C tile items band h3_res resolution = Ok (Some t) →
  ∃ tile_pa,
    tile_samples C items band resolution tile = [tile_pa] ∧
    NoDup t.*1 ∧
    (length t ≤ length tile_pa)%nat ∧
    (t = [] ↔ tile_pa = []) ∧
    ∀ h, hex_result t !! h
         = if decide (samples_in_cell C h3_res h tile_pa = 0%nat) then None
           else Some (AVG (group_of h (keyed C h3_res tile_pa))).
Proof.
  intros (tile_pa & Hpa & ->)%process_tile_to_h3_Some_inv. exists tile_pa.
  split; [done|]. unfold tile_query. split; [apply group_by_avg_NoDup|]. split; [|split].
  - rewrite group_by_avg_length. etrans; [apply remove_dups_length_le|].
    unfold keyed. by rewrite !length_fmap.
  - unfold group_by_avg, keyed. destruct tile_pa as [|s l]; [done|].
    split; [|done]. intros E. apply fmap_nil_inv in E.
    assert (Hin : h3_latlng_to_cell C (lat s) (lng s) h3_res
                  ∈ remove_dups ((λ s, (h3_latlng_to_cell C (lat s) (lng s) h3_res,
                                        elevation s)) <$> s :: l).*1)
      by (apply elem_of_remove_dups; left).
    rewrite E in Hin. by apply elem_of_nil in Hin.
  - intros h. rewrite hex_result_group_by_avg.
    pose proof (samples_in_cell_0 C h3_res h tile_pa) as H0.
    destruct (decide (h ∈ (keyed C h3_res tile_pa).*1)),
             (decide (samples_in_cell C h3_res h tile_pa = 0%nat)); tauto.
Qed.

Lemma process_tile_to_h3_local_means_witness :
  let C := stub two_pixel_grid unit_cell split_three accept_all in
  let t : table := [(0%N, Z2f 10); (1%N, Z2f 0)] in
  process_tile_to_h3 C tile0 () "data" 9 30 = Ok (Some t) ∧
  ∃ tile_pa,
    tile_samples C () "data" 30 tile0 = [tile_pa] ∧
    NoDup t.*1 ∧
    (length t ≤ length tile_pa)%nat ∧
    (t = [] ↔ tile_pa = []) ∧
    ∀ h, hex_result t !! h
         = if decide (samples_in_cell C 9 h tile_pa = 0%nat) then None
           else Some (AVG (group_of h (keyed C 9 tile_pa))).
Proof.
  intros C t.
  assert (Hp : process_tile_to_h3 C tile0 () "data" 9 30 = Ok (Some t)) by compute_done.
  split; [exact Hp|].
  exact (process_tile_to_h3_local_means C tile0 () "data" 9 30 t Hp).
Defined.

(** ** Two phases against one pass, hex id by hex id *)

Section HexByHex.

Context (C : Collaborators) (items : Items C) (band : string) (h3_res : Z).

Lemma AVG_singleton (v : float) : AVG [v] = v.
Proof.
  unfold AVG. cbn [fsum foldr length]. change (Z2f (Z.of_nat 1)) with (Qc_of_Z 1).
  rewrite Z2Qc_inj_1, Qcplus_0_r. by field.
Qed.

Lemma load_pixels_loop_all_fail (tiles : list Tile)
    (acc : list (list float * list float * list float)) :
  (∀ tile, tile ∈ tiles → load_tile_pixels C items band 30 tile = Ok None) →
  load_pixels_loop C items band tiles acc = Ok acc.
Proof.
  revert acc. induction tiles as [|tile tiles IH]; intros acc Hall; [done|].
  cbn [load_pixels_loop]. rewrite Hall by left. rewrite result_bind_ret.
  apply IH. intros; apply Hall; by right.
Qed.

End HexByHex.

(** X12.  The two pipelines cover the same hexagons: when both return, for
    the same tiles and collaborators, their results have the same set of
    hex ids, whatever the sample counts. *)
Theorem two_phase_and_single_pass_same_hex_ids (C : Collaborators) (items : Items C)
    (tiles : list Tile) (band : string) (h3_res : Z) (merged single : table) :
  process_all_tiles C items tiles band h3_res 30 = Ok merged →
  single_pass C items tiles band h3_res = Ok single →
  dom (hex_result merged) = dom (hex_result single).
Proof.
  intros Hp Hs.
  destruct (both_pipelines_by_groups C items band h3_res tiles merged single Hp Hs)
    as [-> ->].
  apply set_eq. intros h. rewrite !elem_of_dom, !hex_result_group_by_avg.
  pose proof (elem_of_concat_group_by_avg_keys h
                (keyed C h3_res <$> (tiles ≫= tile_samples C items band 30))) as Hk.
  destruct (decide _), (decide _); try tauto; split; intros [? ?]; done.
Qed.

Lemma two_phase_and_single_pass_same_hex_ids_witness :
  let C := stub two_pixel_grid wide_cell split_three accept_all in
  let tiles := [tile0; tile1; tile2] in
  let merged : table := [(0%N, Z2f 10); (1%N, Q2Qc (3 # 2))] in
  let single : table := [(0%N, Z2f 10); (1%N, Z2f 2)] in
  process_all_tiles C () tiles "data" 9 30 = Ok merged ∧
  single_pass C () tiles "data" 9 = Ok single ∧
  dom (hex_result merged) = dom (hex_result single).
Proof.
  intros C tiles merged single.
  assert (Hp : process_all_tiles C () tiles "data" 9 30 = Ok merged) by compute_done.
  assert (Hs : single_pass C () tiles "data" 9 = Ok single) by compute_done.
  split; [exact Hp|]. split; [exact Hs|].
  exact (two_phase_and_single_pass_same_hex_ids C () tiles "data" 9 merged single Hp Hs).
Defined.

(** X13.  The two pipelines agree on the hexagons of a single tile: at a
    hex id in which one tile only has samples, both results have the mean of
    these samples, whatever happens at the other hex ids. *)
Theorem two_phase_equals_single_pass_on_one_tile (C : Collaborators) (items : Items C)
    (tiles : list Tile) (band : string) (h3_res : Z) (merged single : table)
    (h : hex_id) (samples : list float) :
  process_all_tiles C items tiles band h3_res 30 = Ok merged →
  single_pass C items tiles band h3_res = Ok single →
  cell_groups C items band h3_res h tiles = [samples] →
  hex_result single !! h = Some (AVG samples) ∧
  hex_result merged !! h = Some (AVG samples).
Proof.
  intros Hp Hs Hone.
  destruct (both_pipelines_at_cell C items band h3_res tiles merged single h Hp Hs)
    as (Hperm & -> & ->).
  rewrite Hone in Hperm |- *. apply Permutation_singleton_r in Hperm. rewrite Hperm.
  cbn [concat fmap list_fmap]. by rewrite app_nil_r, AVG_singleton.
Qed.

Lemma two_phase_equals_single_pass_on_one_tile_witness :
  let C := stub two_pixel_grid wide_cell split_three accept_all in
  let tiles := [tile0; tile1; tile2] in
  let merged : table := [(0%N, Z2f 10); (1%N, Q2Qc (3 # 2))] in
  let single : table := [(0%N, Z2f 10); (1%N, Z2f 2)] in
  process_all_tiles C () tiles "data" 9 30 = Ok merged ∧
  single_pass C () tiles "data" 9 = Ok single ∧
  cell_groups C () "data" 9 0%N tiles = [[Z2f 10]] ∧
  hex_result single !! 0%N = Some (AVG [Z2f 10]) ∧
  hex_result merged !! 0%N = Some (AVG [Z2f 10]).
Proof.
  intros C tiles merged single.
  assert (Hp : process_all_tiles C () tiles "data" 9 30 = Ok merged) by compute_done.
  assert (Hs : single_pass C () tiles "data" 9 = Ok single) by compute_done.
  assert (Hone : cell_groups C () "data" 9 0%N tiles = [[Z2f 10]]) by compute_done.
  split; [exact Hp|]. split; [exact Hs|]. split; [exact Hone|].
  exact (two_phase_equals_single_pass_on_one_tile C () tiles "data" 9 merged single
           0%N [Z2f 10] Hp Hs Hone).
Defined.

(** X14.  When no tile loads (also when there are no tiles), neither
    pipeline returns an empty result: the single-pass notebook stops at
    [np.concatenate] with its [ValueError], the two-phase pipeline with its
    own error for no data. *)
Theorem no_tile_loads (C : Collaborators) (items : Items C)
    (tiles : list Tile) (band : string) (h3_res : Z) :
  (∀ tile, tile ∈ tiles →
     ∃ e, odc_stac_load C items 30 band (tms_bounds C tile) = Raise e) →
  single_pass C items tiles band h3_res
  = Raise (ValueError "need at least one array to concatenate") ∧
  process_all_tiles C items tiles band h3_res 30
  = Raise (RuntimeError "No tiles produced data").
Proof.
  intros Hall.
  assert (Hnone : ∀ tile, tile ∈ tiles → load_tile_pixels C items band 30 tile = Ok None).
  { intros tile Hin. destruct (Hall tile Hin) as [e He].
    unfold load_tile_pixels. by rewrite He. }
  split.
  - unfold single_pass. by rewrite (load_pixels_loop_all_fail C items band tiles [] Hnone).
  - assert (Hw : ∀ tile, tile ∈ tiles → task C items band h3_res 30 tile = Ok None).
    { intros tile Hin. unfold task, process_tile_to_h3. by rewrite (Hnone tile Hin). }
    pose proof (process_all_tiles_merges C items band h3_res 30 tiles
                  ltac:(intros tile Hin; exists None; by apply Hw)) as Hm.
    assert (Hk : tiles ≫= kept ∘ task C items band h3_res 30 = []).
    { clear Hm. induction tiles as [|t l IH]; [done|].
      rewrite bind_cons, IH.
      - unfold compose. by rewrite (Hw t ltac:(left)).
      - intros; apply Hall; by right.
      - intros; apply Hnone; by right.
      - intros; apply Hw; by right. }
    rewrite Hk in Hm.
    destruct (process_all_tiles C items tiles band h3_res 30); simpl in Hm; by simplify_eq.
Qed.

Lemma no_tile_loads_witness :
  let C := stub two_pixel_grid unit_cell split_three accept_all in
  (∀ tile, tile ∈ [tile2] → ∃ e, odc_stac_load C () 30 "data" (tms_bounds C tile) = Raise e) ∧
  single_pass C () [tile2] "data" 9
  = Raise (ValueError "need at least one array to concatenate") ∧
  process_all_tiles C () [tile2] "data" 9 30 = Raise (RuntimeError "No tiles produced data").
Proof.
  intros C.
  assert (Hall : ∀ tile, tile ∈ [tile2] →
            ∃ e, odc_stac_load C () 30 "data" (tms_bounds C tile) = Raise e).
  { intros tile Hin. apply list_elem_of_singleton in Hin as ->. eexists; reflexivity. }
  split; [exact Hall|]. exact (no_tile_loads C () [tile2] "data" 9 Hall).
Defined.

(** ** Hexagons of one tile, and skipped tiles in the single pass *)

Section Interior.

Lemma group_of_unique (h : hex_id) (v : float) (t : table) :
  NoDup t.*1 → (h, v) ∈ t → group_of h t = [v].
Proof.
  unfold group_of. induction t as [|[k w] t IH]; intros Hnd Hin.
  - by apply elem_of_nil in Hin.
  - rewrite fmap_cons in Hnd. apply NoDup_cons in Hnd as [Hk Hnd].
    rewrite filter_cons. cbn [fst]. apply elem_of_cons in Hin as [[= <- <-]|Hin].
    + rewrite decide_True by done. cbn [fmap list_fmap snd]. f_equal.
      apply (group_of_nil_iff h t). done.
    + rewrite decide_False; [by apply IH|].
      intros ->. apply Hk. apply list_elem_of_fmap. by exists (h, v).
Qed.

Lemma load_pixels_loop_app (C : Collaborators) (items : Items C) (band : string)
    (tiles1 tiles2 : list Tile) (acc : list (list float * list float * list float)) :
  load_pixels_loop C items band (tiles1 ++ tiles2) acc
  = (acc' ← load_pixels_loop C items band tiles1 acc;
     load_pixels_loop C items band tiles2 acc').
Proof.
  revert acc. induction tiles1 as [|tile tiles1 IH]; intros acc; [done|].
  cbn [app load_pixels_loop].
  destruct (load_tile_pixels C items band 30 tile) as [px|e]; [|done].
  rewrite !result_bind_ret. apply IH.
Qed.

End Interior.

(** X15.  Merging leaves the hexagons of a single tile alone: a hex id that
    occurs in one table only, each table having it at most once, keeps in the
    merged result the value it has in that table. *)
Theorem merge_batches_keeps_unshared (before after : list table) (t : table)
    (h : hex_id) (v : float) :
  NoDup t.*1 → (h, v) ∈ t →
  h ∉ (concat before).*1 → h ∉ (concat after).*1 →
  ∃ merged, merge_batches (before ++ t :: after) = Ok merged ∧
            hex_result merged !! h = Some v.
Proof.
  intros Hnd Hin Hb Ha. eexists. split; [apply merge_batches_Ok; by destruct before|].
  rewrite hex_result_group_by_avg, concat_app, concat_cons.
  rewrite decide_True.
  - f_equal. rewrite !group_of_app.
    apply group_of_nil_iff in Hb, Ha. rewrite Hb, Ha, (group_of_unique h v t Hnd Hin).
    apply AVG_singleton.
  - rewrite !fmap_app, !elem_of_app. right; left.
    apply list_elem_of_fmap. by exists (h, v).
Qed.

Lemma merge_batches_keeps_unshared_witness :
  let before : list table := [[(7%N, Z2f 100); (8%N, Z2f 5)]] in
  let t : table := [(7%N, Z2f 200); (9%N, Z2f 1)] in
  let after : list table := [] in
  NoDup t.*1 ∧ ((9%N, Z2f 1) ∈ t) ∧
  (9%N ∉ (concat before).*1) ∧ (9%N ∉ (concat after).*1) ∧
  ∃ merged, merge_batches (before ++ t :: after) = Ok merged ∧
            hex_result merged !! 9%N = Some (Z2f 1).
Proof.
  intros before t after.
  assert (Hnd : NoDup t.*1) by (by apply (bool_decide_unpack _)).
  assert (Hin : (9%N, Z2f 1) ∈ t) by (right; left).
  assert (Hb : 9%N ∉ (concat before).*1) by (by apply (bool_decide_unpack _)).
  assert (Ha : 9%N ∉ (concat after).*1) by (by apply (bool_decide_unpack _)).
  split; [exact Hnd|]. split; [exact Hin|]. split; [exact Hb|]. split; [exact Ha|].
  exact (merge_batches_keeps_unshared before after t 9%N (Z2f 1) Hnd Hin Hb Ha).
Defined.

(** X16.  The single-pass loop skips a tile whose load fails: the outcome
    is the one without that tile. *)
Theorem single_pass_skips_failed_load (C : Collaborators) (items : Items C)
    (before after : list Tile) (tile : Tile) (band : string) (h3_res : Z) (e : exn) :
  odc_stac_load C items 30 band (tms_bounds C tile) = Raise e →
  single_pass C items (before ++ tile :: after) band h3_res
  = single_pass C items (before ++ after) band h3_res.
Proof.
  intros He. unfold single_pass. rewrite !load_pixels_loop_app.
  assert (Hskip : ∀ acc, load_pixels_loop C items band (tile :: after) acc
                         = load_pixels_loop C items band after acc).
  { intros acc. cbn [load_pixels_loop]. unfold load_tile_pixels at 1. by rewrite He. }
  destruct (load_pixels_loop C items band before []) as [acc|]; [|done].
  by rewrite !result_bind_ret, Hskip.
Qed.

Lemma single_pass_skips_failed_load_witness :
  let C := stub two_pixel_grid unit_cell split_three accept_all in
  odc_stac_load C () 30 "data" (tms_bounds C tile2) = Raise (LibraryError "no coverage") ∧
  single_pass C () ([tile0] ++ tile2 :: [tile1]) "data" 9
  = single_pass C () ([tile0] ++ [tile1]) "data" 9.
Proof.
  intros C.
  assert (He : odc_stac_load C () 30 "data" (tms_bounds C tile2)
               = Raise (LibraryError "no coverage")) by reflexivity.
  split; [exact He|].
  exact (single_pass_skips_failed_load C () [tile0] [tile1] tile2 "data" 9 _ He).
Defined.
